(** * The xv6 buffer cache with hashed buckets (kernel/bio.c)

    A shallow embedding of [kernel/bio.c]: the cache [bcache] with its
    [NBUCKET] bucket lists and bucket spinlocks, the pool of [struct buf],
    and the operations [binit], [bget], [bread], [bwrite], [brelse],
    [bpin] and [bunpin].

    The intrusive circular lists through [prev]/[next] are represented by
    the sequence of pool indices reachable from each list head through
    [next]; a pointer to a [struct buf] is its index in [bcache.buf].
    Unsigned 32-bit fields are integers with the wrap-around written out.
    Operations run on behalf of one thread [t] against the kernel state;
    a call that cannot proceed because somebody holds the lock it wants
    ends in [Wait], a call to [panic] ends in [Panic]. *)

From Stdlib Require Import ZArith Lia String.
From stdpp Require Import base option list gmap strings.

Local Open Scope Z_scope.
Local Open Scope nat_scope.

(** ** Constants and machine integers *)

Definition NBUCKET : nat := 13.

(** [uint] arithmetic wraps at 2^32. *)
Definition UINT_MOD : Z := 2 ^ 32.
Definition uint (z : Z) : Z := z mod UINT_MOD.

(** [#define HASH(x) (x % NBUCKET)] on a [uint] block number. *)
Definition HASH (x : Z) : nat := Z.to_nat (x mod Z.of_nat NBUCKET).

(** ** Data *)

Definition tid := nat.
Definition block := list Byte.byte.

(** [struct buf]; [prev] and [next] live in the bucket lists, [sleeplock]
    is the holder of [struct sleeplock lock]. *)
Record buf : Type := mkbuf {
  valid : Z;
  dev : Z;
  blockno : Z;
  sleeplock : option tid;
  refcnt : Z;
  timestamp : Z;
  data : block
}.

Inductive lockid : Type :=
| ShardLock (i : nat)
| TicksLock
| SleepLock (b : nat).

(** Calls to the collaborators, in program order. *)
Inductive event : Type :=
| EvAcquire (t : tid) (l : lockid)
| EvRelease (t : tid) (l : lockid)
| EvDisk (t : tid) (b : nat) (write : bool).

(** The kernel state [bio.c] works on: [bcache] ([table], [lock], [bufs]),
    the clock ([ticks] under [tickslock]), the disk and the record of
    collaborator calls. *)
Record kstate : Type := mkstate {
  table : list (list nat);
  lock : list (option tid);
  bufs : list buf;
  ticks : Z;
  tickslock : option tid;
  disk : gmap (Z * Z) block;
  trace : list event
}.

Definition set_table (f : list (list nat) → list (list nat)) (s : kstate) : kstate :=
  mkstate (f (table s)) (lock s) (bufs s) (ticks s) (tickslock s) (disk s) (trace s).
Definition set_lock (f : list (option tid) → list (option tid)) (s : kstate) : kstate :=
  mkstate (table s) (f (lock s)) (bufs s) (ticks s) (tickslock s) (disk s) (trace s).
Definition set_bufs (f : list buf → list buf) (s : kstate) : kstate :=
  mkstate (table s) (lock s) (f (bufs s)) (ticks s) (tickslock s) (disk s) (trace s).
Definition set_tickslock (o : option tid) (s : kstate) : kstate :=
  mkstate (table s) (lock s) (bufs s) (ticks s) o (disk s) (trace s).
Definition set_disk (f : gmap (Z * Z) block → gmap (Z * Z) block) (s : kstate) : kstate :=
  mkstate (table s) (lock s) (bufs s) (ticks s) (tickslock s) (f (disk s)) (trace s).
Definition log (e : event) (s : kstate) : kstate :=
  mkstate (table s) (lock s) (bufs s) (ticks s) (tickslock s) (disk s) (trace s ++ [e]).

Definition with_valid (v : Z) (x : buf) : buf :=
  mkbuf v (dev x) (blockno x) (sleeplock x) (refcnt x) (timestamp x) (data x).
Definition with_id (d bn : Z) (x : buf) : buf :=
  mkbuf (valid x) d bn (sleeplock x) (refcnt x) (timestamp x) (data x).
Definition with_sleeplock (o : option tid) (x : buf) : buf :=
  mkbuf (valid x) (dev x) (blockno x) o (refcnt x) (timestamp x) (data x).
Definition with_refcnt (r : Z) (x : buf) : buf :=
  mkbuf (valid x) (dev x) (blockno x) (sleeplock x) r (timestamp x) (data x).
Definition with_timestamp (ts : Z) (x : buf) : buf :=
  mkbuf (valid x) (dev x) (blockno x) (sleeplock x) (refcnt x) ts (data x).
Definition with_data (c : block) (x : buf) : buf :=
  mkbuf (valid x) (dev x) (blockno x) (sleeplock x) (refcnt x) (timestamp x) c.

(** The members of bucket [i], from [table[i].next] onwards. *)
Definition bucket (s : kstate) (i : nat) : list nat := default [] (table s !! i).

(** ** Outcomes and sequencing *)

Inductive outcome (A : Type) : Type :=
| Ret (a : A) (s : kstate)
| Panic (msg : string) (s : kstate)
| Wait (l : lockid) (s : kstate)
| Fault (s : kstate).
Arguments Ret {A} a s.
Arguments Panic {A} msg s.
Arguments Wait {A} l s.
Arguments Fault {A} s.

Definition M (A : Type) : Type := kstate → outcome A.

Definition ret {A} (a : A) : M A := λ s, Ret a s.
Definition bind {A B} (m : M A) (k : A → M B) : M B := λ s,
  match m s with
  | Ret a s' => k a s'
  | Panic msg s' => Panic msg s'
  | Wait l s' => Wait l s'
  | Fault s' => Fault s'
  end.

Notation "x <- m ;; k" := (bind m (λ x, k))
  (at level 100, m at next level, right associativity, only parsing).
Notation "m ;;; k" := (bind m (λ _, k))
  (at level 100, right associativity, only parsing).
Definition get : M kstate := λ s, Ret s s.
Definition modify (f : kstate → kstate) : M unit := λ s, Ret tt (f s).

(** ** Collaborators *)

Definition panic {A} (msg : string) : M A := λ s, Panic msg s.

(** A pointer into [bcache.buf]; anything else is not a buffer. *)
Definition getbuf (b : nat) : M buf := λ s,
  match bufs s !! b with
  | Some x => Ret x s
  | None => Fault s
  end.
Definition modbuf (b : nat) (f : buf → buf) : M unit :=
  modify (set_bufs (alter f b)).

(** Modelled from the spec: [acquire] of kernel/spinlock.c, which is not part
    of the sources at hand. The spec describes the structural lock as a
    standard mutual-exclusion lock whose plain acquisition is blocking: the
    caller gets the lock when it is free and otherwise waits for it. *)
Definition acquire (t : tid) (i : nat) : M unit := λ s,
  let s1 := log (EvAcquire t (ShardLock i)) s in
  match lock s !! i with
  | Some None => Ret tt (set_lock <[i := Some t]> s1)
  | _ => Wait (ShardLock i) s1
  end.

(** Modelled from the spec: [release] of kernel/spinlock.c; frees the lock. *)
Definition release (t : tid) (i : nat) : M unit :=
  modify (λ s, set_lock <[i := None]> (log (EvRelease t (ShardLock i)) s)).

(** Modelled from the spec: [holding] of kernel/spinlock.c. The spec describes
    the check as the introspection "is this lock already held by me". *)
Definition holding (t : tid) (i : nat) (s : kstate) : bool :=
  bool_decide (lock s !! i = Some (Some t)).

(** [acquire(&tickslock)] and [release(&tickslock)], the same spinlock
    operations on the clock's lock. *)
Definition acquire_ticks (t : tid) : M unit := λ s,
  let s1 := log (EvAcquire t TicksLock) s in
  match tickslock s with
  | None => Ret tt (set_tickslock (Some t) s1)
  | Some _ => Wait TicksLock s1
  end.
Definition release_ticks (t : tid) : M unit :=
  modify (λ s, set_tickslock None (log (EvRelease t TicksLock) s)).

(** Modelled from the spec: [acquiresleep], [releasesleep] and [holdingsleep]
    of kernel/sleeplock.c: the per-slot exclusive lock is a blocking mutex,
    and the holder test asks whether the caller holds it. *)
Definition acquiresleep (t : tid) (b : nat) : M unit :=
  x <- getbuf b ;;
  λ s,
  let s1 := log (EvAcquire t (SleepLock b)) s in
  match sleeplock x with
  | None => Ret tt (set_bufs (alter (with_sleeplock (Some t)) b) s1)
  | Some _ => Wait (SleepLock b) s1
  end.
Definition releasesleep (t : tid) (b : nat) : M unit :=
  modify (λ s, set_bufs (alter (with_sleeplock None) b)
                 (log (EvRelease t (SleepLock b)) s)).
Definition holdingsleep (t : tid) (x : buf) : bool :=
  bool_decide (sleeplock x = Some t).

(** Modelled from the spec: [virtio_disk_rw(b, write)], the disk driver. With
    [write = 0] it fills the buffer's content from block [blockno] of device
    [dev]; with [write = 1] it stores the content at that location. *)
Definition virtio_disk_rw (t : tid) (b : nat) (write : bool) : M unit :=
  x <- getbuf b ;;
  modify (log (EvDisk t b write)) ;;;
  if write
  then modify (set_disk <[(dev x, blockno x) := data x]>)
  else s <- get ;;
       modbuf b (with_data (default [] (disk s !! (dev x, blockno x)))).

(** ** bio.c *)

(** [binit]: every bucket list is made empty and every bucket lock free,
    then each buffer of the pool, in pool order, is pushed on the front of
    [table[0]] with its sleep lock initialised. *)
Definition push_front (i b : nat) (tb : list (list nat)) : list (list nat) :=
  alter (cons b) i tb.

(** One turn of the second loop of [binit]. *)
Definition link (s : kstate) (b : nat) : kstate :=
  set_bufs (alter (with_sleeplock None) b) (set_table (push_front 0 b) s).

Definition binit : M unit :=
  modify (set_lock (λ _, replicate NBUCKET None)) ;;;
  modify (set_table (λ _, replicate NBUCKET [])) ;;;
  s <- get ;;
  modify (λ s0, foldl link s0 (seq 0 (length (bufs s)))).

(** The first loop of [bget]: the first buffer of the bucket, in list
    order, with the wanted [dev] and [blockno]. *)
Fixpoint cached (bs : list buf) (l : list nat) (dv bn : Z) : option nat :=
  match l with
  | [] => None
  | b :: l' =>
      match bs !! b with
      | Some x =>
          if ((dev x =? dv)%Z && (blockno x =? bn)%Z)%bool then Some b
          else cached bs l' dv bn
      | None => cached bs l' dv bn
      end
  end.

(** The test [tmp->timestamp < b->timestamp], with [b == 0] as [None]. *)
Definition older (bs : list buf) (x : buf) (b : option nat) : bool :=
  match b with
  | None => true
  | Some b0 =>
      match bs !! b0 with
      | Some y => (timestamp x <? timestamp y)%Z
      | None => false
      end
  end.

(** The inner loop of the scan over one bucket, [b] being the candidate so far. *)
Fixpoint lru (bs : list buf) (l : list nat) (b : option nat) : option nat :=
  match l with
  | [] => b
  | tmp :: l' =>
      lru bs l'
        (match bs !! tmp with
         | Some x => if ((refcnt x =? 0)%Z && older bs x b)%bool then Some tmp else b
         | None => b
         end)
  end.

(** [b->next->prev = b->prev; b->prev->next = b->next]. *)
Definition unlink (b : nat) (l : list nat) : list nat :=
  filter (λ x, x ≠ b) l.

(** [b->timestamp = ticks] under [tickslock]. *)
Definition stamp (t : tid) (b : nat) : M unit :=
  acquire_ticks t ;;;
  s <- get ;;
  modbuf b (with_timestamp (ticks s)) ;;;
  release_ticks t.

(** The body of [if (b) { ... return b; }]: the candidate [b] found in
    bucket [i] becomes the buffer of [(dv, bn)] in the home bucket [id]. *)
Definition recycle (t : tid) (dv bn : Z) (id i b : nat) : M nat :=
  (if decide (i ≠ id)
   then modify (set_table (alter (unlink b) i)) ;;;
        release t i ;;;
        modify (set_table (push_front id b))
   else ret tt) ;;;
  modbuf b (with_id dv bn) ;;;
  modbuf b (with_valid 0) ;;;
  modbuf b (with_refcnt 1) ;;;
  stamp t b ;;;
  release t id ;;;
  acquiresleep t b ;;;
  ret b.

(** The loop [for (i = id, cycle = 0; cycle != NBUCKET; i = (i + 1) % NBUCKET)]
    with [n = NBUCKET - cycle] iterations to go. An iteration that finds a
    candidate returns, so [b] is null at the start of every iteration. *)
Fixpoint scan (t : tid) (dv bn : Z) (id i n : nat) : M nat :=
  match n with
  | O => panic "bget: no buffers"
  | S n' =>
      let next := (i + 1) mod NBUCKET in
      s <- get ;;
      if (bool_decide (i ≠ id) && holding t i s)%bool
      then scan t dv bn id next n'
      else
        (if decide (i ≠ id) then acquire t i else ret tt) ;;;
        s1 <- get ;;
        match lru (bufs s1) (bucket s1 i) None with
        | Some b => recycle t dv bn id i b
        | None =>
            (if decide (i ≠ id) then release t i else ret tt) ;;;
            scan t dv bn id next n'
        end
  end.

Definition bget (t : tid) (dv bn : Z) : M nat :=
  let id := HASH bn in
  acquire t id ;;;
  s <- get ;;
  match cached (bufs s) (bucket s id) dv bn with
  | Some b =>
      modbuf b (λ x, with_refcnt (uint (refcnt x + 1)) x) ;;;
      release t id ;;;
      acquiresleep t b ;;;
      ret b
  | None => scan t dv bn id id NBUCKET
  end.

Definition bread (t : tid) (dv bn : Z) : M nat :=
  b <- bget t dv bn ;;
  x <- getbuf b ;;
  if (valid x =? 0)%Z
  then virtio_disk_rw t b false ;;;
       modbuf b (with_valid 1) ;;;
       ret b
  else ret b.

Definition bwrite (t : tid) (b : nat) : M unit :=
  x <- getbuf b ;;
  if negb (holdingsleep t x) then panic "bwrite"
  else virtio_disk_rw t b true.

Definition brelse (t : tid) (b : nat) : M unit :=
  x <- getbuf b ;;
  if negb (holdingsleep t x) then panic "brelse"
  else
    let id := HASH (blockno x) in
    releasesleep t b ;;;
    acquire t id ;;;
    modbuf b (λ y, with_refcnt (uint (refcnt y - 1)) y) ;;;
    stamp t b ;;;
    release t id.

Definition bpin (t : tid) (b : nat) : M unit :=
  x <- getbuf b ;;
  let id := HASH (blockno x) in
  acquire t id ;;;
  modbuf b (λ y, with_refcnt (uint (refcnt y + 1)) y) ;;;
  release t id.

Definition bunpin (t : tid) (b : nat) : M unit :=
  x <- getbuf b ;;
  let id := HASH (blockno x) in
  acquire t id ;;;
  modbuf b (λ y, with_refcnt (uint (refcnt y - 1)) y) ;;;
  release t id.

(** ** The interface as a whole *)

Inductive call : Type :=
| Cbread (dv bn : Z)
| Cbwrite (b : nat)
| Cbrelse (b : nat)
| Cbpin (b : nat)
| Cbunpin (b : nat).

Definition exec (t : tid) (c : call) : M unit :=
  match c with
  | Cbread dv bn => _ <- bread t dv bn ;; ret tt
  | Cbwrite b => bwrite t b
  | Cbrelse b => brelse t b
  | Cbpin b => bpin t b
  | Cbunpin b => bunpin t b
  end.

(** The state an outcome ends in. *)
Definition final {A} (o : outcome A) : kstate :=
  match o with
  | Ret _ s | Panic _ s | Wait _ s | Fault s => s
  end.

(** ** Vocabulary of the properties *)

(** The values [i] takes in the loop of [scan], in order. *)
Fixpoint order (i n : nat) : list nat :=
  match n with
  | O => []
  | S n' => i :: order ((i + 1) mod NBUCKET) n'
  end.
Definition scan_order (id : nat) : list nat := order id NBUCKET.

(** Bucket [i] holds no buffer with [refcnt == 0]. *)
Definition no_idle (s : kstate) (i : nat) : Prop :=
  ∀ b x, b ∈ bucket s i → bufs s !! b = Some x → refcnt x ≠ 0%Z.

Definition no_idleb (s : kstate) (i : nat) : bool :=
  forallb (λ b, match bufs s !! b with
                | Some x => negb (refcnt x =? 0)%Z
                | None => true
                end) (bucket s i).

(** Bucket [i] is passed over by the scan of thread [t] from home [id]. *)
Definition skipped (t : tid) (id : nat) (s : kstate) (i : nat) : Prop :=
  i ≠ id ∧ lock s !! i = Some (Some t).

(** The lock calls one iteration of the scan makes on a bucket without
    candidate. *)
Definition visit (t : tid) (id : nat) (s : kstate) (i : nat) : list event :=
  if (bool_decide (i ≠ id) && holding t i s)%bool then []
  else if decide (i ≠ id)
       then [EvAcquire t (ShardLock i); EvRelease t (ShardLock i)]
       else [].

(** Two states that differ at most in the bucket locks and the trace. *)
Definition same_cache (s s' : kstate) : Prop :=
  table s' = table s ∧ bufs s' = bufs s ∧ ticks s' = ticks s ∧
  tickslock s' = tickslock s ∧ disk s' = disk s.

(** A buffer of the pool that nobody references. *)
Definition idle (bs : list buf) (b : nat) : Prop :=
  ∃ x, bs !! b = Some x ∧ refcnt x = 0%Z.

Definition stamp_of (bs : list buf) (b : nat) : Z :=
  default 0%Z (timestamp <$> bs !! b).

(** What the candidate so far means after the loop has walked [seen]. *)
Definition lru_acc (bs : list buf) (seen : list nat) (acc : option nat) : Prop :=
  match acc with
  | None => ∀ b, b ∈ seen → ¬ idle bs b
  | Some a => a ∈ seen ∧ idle bs a ∧
              ∀ b, b ∈ seen → idle bs b → (stamp_of bs a ≤ stamp_of bs b)%Z
  end.

(** The arrays have their declared sizes, every buffer is linked on exactly
    one bucket list, the one its block number hashes to, and every list
    member is a buffer of the pool. *)
Record inv (s : kstate) : Prop := mkinv {
  inv_table : length (table s) = NBUCKET;
  inv_lock : length (lock s) = NBUCKET;
  inv_nodup : ∀ i, NoDup (bucket s i);
  inv_place : ∀ b x, bufs s !! b = Some x →
                ∀ i, b ∈ bucket s i ↔ i = HASH (blockno x);
  inv_range : ∀ i b, b ∈ bucket s i → b < length (bufs s)
}.

(** Static storage before [binit]: all of [bcache] is zero. *)
Definition zero_buf : buf := mkbuf 0 0 0 None 0 0 [].
Definition boot (nbuf : nat) : kstate :=
  mkstate (replicate NBUCKET []) (replicate NBUCKET None)
          (replicate nbuf zero_buf) 0 None ∅ [].

(** The clock interrupt moves [ticks]; it is the only step that does not
    come from [bio.c]. *)
Definition set_ticks (z : Z) (s : kstate) : kstate :=
  mkstate (table s) (lock s) (bufs s) z (tickslock s) (disk s) (trace s).

(** The states the cache goes through: [binit] on zeroed storage, then
    calls that return, with the clock ticking in between. *)
Inductive reachable : kstate → Prop :=
| reach_binit (nbuf : nat) : reachable (final (binit (boot nbuf)))
| reach_call (t : tid) (c : call) (s s' : kstate) :
    reachable s → exec t c s = Ret tt s' → reachable s'
| reach_clock (s : kstate) (z : Z) :
    reachable s → reachable (set_ticks z s).

(** ** Scenarios *)

(** A pool of two buffers taken through [binit] and then, at ticks 1 to 4,
    [bread(1, 1)], [brelse], [bread(1, 2)], [brelse] by thread 1. *)
Definition run0 : kstate := final (binit (boot 2)).
Definition run1 : kstate := final (exec 1 (Cbread 1 1) (set_ticks 1 run0)).
Definition run2 : kstate := final (exec 1 (Cbrelse 1) (set_ticks 2 run1)).
Definition run3 : kstate := final (exec 1 (Cbread 1 2) (set_ticks 3 run2)).
Definition run4 : kstate := final (exec 1 (Cbrelse 0) (set_ticks 4 run3)).
Definition run5 : kstate := set_ticks 5 run4.

(** The cache that run ends with, at tick 5: both buffers cache a block and
    are idle; buffer 1 (block 1, bucket 1) was released at tick 2, buffer 0
    (block 2, bucket 2) at tick 4. *)
Definition full_cache : kstate :=
  mkstate [[]; [1]; [0]; []; []; []; []; []; []; []; []; []; []]
          (replicate NBUCKET None)
          [mkbuf 1 1 2 None 0 4 []; mkbuf 1 1 1 None 0 2 []]
          5 None ∅ [].

(** The same cache with both buffers in use: buffer 0 by thread 3, buffer 1
    referenced twice and locked by thread 4. *)
Definition busy_cache : kstate :=
  mkstate [[]; [1]; [0]; []; []; []; []; []; []; []; []; []; []]
          (replicate NBUCKET None)
          [mkbuf 1 1 2 (Some 3) 1 4 []; mkbuf 1 1 1 (Some 4) 2 2 []]
          5 None ∅ [].

(** [busy_cache] at the moment thread 2, inside [bget(1, 14)], has taken the
    lock of its home bucket 1 and found block 14 not cached. *)
Definition busy_cache_2_in_bget : kstate :=
  final (acquire 2 (HASH 14) busy_cache).

(** A full cache in which the older block is touched again: a pool of two
    buffers taken through [binit] and then, at ticks 1 to 6, [bread(1, 0)],
    [brelse], [bread(1, 1)], [brelse], [bread(1, 0)] once more and [brelse],
    all by thread 1; the clock then shows 7. Block 0 sits in buffer 1, block
    1 in buffer 0. *)
Definition touch0 : kstate := final (binit (boot 2)).
Definition touch1 : kstate := final (exec 1 (Cbread 1 0) (set_ticks 1 touch0)).
Definition touch2 : kstate := final (exec 1 (Cbrelse 1) (set_ticks 2 touch1)).
Definition touch3 : kstate := final (exec 1 (Cbread 1 1) (set_ticks 3 touch2)).
Definition touch4 : kstate := final (exec 1 (Cbrelse 0) (set_ticks 4 touch3)).
Definition touch5 : kstate := final (exec 1 (Cbread 1 0) (set_ticks 5 touch4)).
Definition touch6 : kstate := final (exec 1 (Cbrelse 1) (set_ticks 6 touch5)).
Definition touch7 : kstate := set_ticks 7 touch6.

(** ** Vocabulary of the further properties *)

(** Buffer [c] carries the pair [(dv, bn)]. *)
Definition matches (bs : list buf) (dv bn : Z) (c : nat) : Prop :=
  ∃ x, bs !! c = Some x ∧ dev x = dv ∧ blockno x = bn.

(** Every buffer with [valid] set is the buffer the first loop of [bget]
    finds for its own [dev] and [blockno]. *)
Definition valid_first (s : kstate) : Prop :=
  ∀ b x, bufs s !! b = Some x → valid x ≠ 0%Z →
         cached (bufs s) (bucket s (HASH (blockno x))) (dev x) (blockno x) = Some b.

(** What the candidate so far means after the inner loop of the scan has
    walked [seen], with its place in the list: strictly older than every
    idle buffer before it, at least as old as every idle buffer after it. *)
Definition lru_pos (bs : list buf) (seen : list nat) (acc : option nat) : Prop :=
  match acc with
  | None => ∀ b, b ∈ seen → ¬ idle bs b
  | Some a => ∃ pre post, seen = pre ++ a :: post ∧ idle bs a ∧
      (∀ b, b ∈ pre → idle bs b → (stamp_of bs a < stamp_of bs b)%Z) ∧
      (∀ b, b ∈ post → idle bs b → (stamp_of bs a ≤ stamp_of bs b)%Z)
  end.

(** [full_cache] after [bpin] of buffer 0 by thread 9. *)
Definition pinned_cache : kstate := final (bpin 9 0 full_cache).

(** ** Proof tools *)

#[local] Arguments Nat.modulo : simpl never.

(** Membership in [seen ++ [tmp]], for what was seen or for [tmp]. *)
Ltac snoc_mem :=
  apply elem_of_app; first [by left | right; apply list_elem_of_here].

(** * Properties *)

(** ** The model on small inputs *)

Example HASH_15 : HASH 15 = 2.
Proof. reflexivity. Qed.

Example scan_order_11 : scan_order 11 = [11; 12; 0; 1; 2; 3; 4; 5; 6; 7; 8; 9; 10].
Proof. reflexivity. Qed.

Example binit_three :
  table (final (binit (boot 3))) = [[2; 1; 0]; []; []; []; []; []; []; []; []; []; []; []; []].
Proof. reflexivity. Qed.

Example lru_first_of_equals :
  lru [mkbuf 0 0 0 None 0 7 []; mkbuf 0 0 0 None 1 3 []; mkbuf 0 0 0 None 0 7 []]
      [2; 1; 0] None = Some 2.
Proof. reflexivity. Qed.

Example bread_after_binit :
  ∃ s', bread 1 1 5 (final (binit (boot 3))) = Ret 2 s' ∧
        bucket s' 0 = [1; 0] ∧ bucket s' 5 = [2] ∧
        bufs s' !! 2 = Some (mkbuf 1 1 5 (Some 1) 1 0 []).
Proof. eexists. split; [by vm_compute|]. by vm_compute. Qed.

(** ** Lists and arrays *)

Section arrays.
Context {A : Type}.
Implicit Types (l : list A) (f g : A → A).

Lemma alter_lookup_insert f l i x :
  l !! i = Some x → alter f i l = <[i := f x]> l.
Proof.
  intros Hx. apply list_eq. intros j.
  destruct (decide (i = j)) as [<-|Hne].
  - rewrite list_lookup_alter_eq, Hx, list_lookup_insert_eq; [done|].
    by eapply lookup_lt_Some.
  - by rewrite list_lookup_alter_ne, list_lookup_insert_ne.
Qed.

Lemma insert_restore l i x y :
  l !! i = Some x → <[i := x]> (<[i := y]> l) = l.
Proof. intros Hx. rewrite list_insert_insert_eq. by apply list_insert_id. Qed.
End arrays.

Lemma HASH_lt (bn : Z) : HASH bn < NBUCKET.
Proof.
  unfold HASH, NBUCKET.
  pose proof (Z.mod_pos_bound bn (Z.of_nat 13)). lia.
Qed.

(** ** The candidate search within one bucket *)

Lemma lru_acc_step (bs : list buf) (seen l : list nat) (acc : option nat) :
  lru_acc bs seen acc → lru_acc bs (seen ++ l) (lru bs l acc).
Proof.
  revert seen acc. induction l as [|tmp l IH]; intros seen acc Hacc; simpl.
  - by rewrite app_nil_r.
  - replace (seen ++ tmp :: l) with ((seen ++ [tmp]) ++ l)
      by (by rewrite <- app_assoc).
    apply IH. clear IH.
    destruct (bs !! tmp) as [x|] eqn:Hx.
    + destruct (refcnt x =? 0)%Z eqn:Hr; simpl.
      * apply Z.eqb_eq in Hr.
        assert (idle bs tmp) as Hidle by (by exists x).
        destruct acc as [a|]; simpl in *.
        -- destruct Hacc as (Ha & Hai & Hmin).
           destruct Hai as (y & Hy & Hyr). rewrite Hy.
           destruct (timestamp x <? timestamp y)%Z eqn:Hlt.
           ++ apply Z.ltb_lt in Hlt. split; [snoc_mem|]. split; [done|].
              intros b Hb Hbi. apply elem_of_app in Hb as [Hb|Hb].
              ** specialize (Hmin b Hb Hbi). unfold stamp_of in *.
                 rewrite Hx. rewrite Hy in Hmin. simpl in *. lia.
              ** apply list_elem_of_singleton in Hb as ->. lia.
           ++ apply Z.ltb_ge in Hlt. split; [snoc_mem|].
              split; [by exists y|].
              intros b Hb Hbi. apply elem_of_app in Hb as [Hb|Hb].
              ** by apply Hmin.
              ** apply list_elem_of_singleton in Hb as ->. unfold stamp_of.
                 rewrite Hx, Hy. simpl. lia.
        -- split; [snoc_mem|]. split; [done|].
           intros b Hb Hbi. apply elem_of_app in Hb as [Hb|Hb].
           ++ by destruct (Hacc b Hb).
           ++ apply list_elem_of_singleton in Hb as ->. lia.
      * apply Z.eqb_neq in Hr.
        assert (¬ idle bs tmp) as Hbusy.
        { intros (y & Hy & Hyr). congruence. }
        destruct acc as [a|]; simpl in *.
        -- destruct Hacc as (Ha & Hai & Hmin). split; [snoc_mem|].
           split; [done|]. intros b Hb Hbi.
           apply elem_of_app in Hb as [Hb|Hb]; [by apply Hmin|].
           apply list_elem_of_singleton in Hb as ->. done.
        -- intros b Hb. apply elem_of_app in Hb as [Hb|Hb]; [by apply Hacc|].
           apply list_elem_of_singleton in Hb as ->. done.
    + assert (¬ idle bs tmp) as Hbusy.
      { intros (y & Hy & Hyr). congruence. }
      destruct acc as [a|]; simpl in *.
      * destruct Hacc as (Ha & Hai & Hmin). split; [snoc_mem|].
        split; [done|]. intros b Hb Hbi.
        apply elem_of_app in Hb as [Hb|Hb]; [by apply Hmin|].
        apply list_elem_of_singleton in Hb as ->. done.
      * intros b Hb. apply elem_of_app in Hb as [Hb|Hb]; [by apply Hacc|].
        apply list_elem_of_singleton in Hb as ->. done.
Qed.

Lemma lru_spec (bs : list buf) (l : list nat) : lru_acc bs l (lru bs l None).
Proof. apply (lru_acc_step bs [] l None). intros b Hb. by apply elem_of_nil in Hb. Qed.

Lemma lru_Some (bs : list buf) (l : list nat) (b : nat) :
  lru bs l None = Some b →
  b ∈ l ∧ idle bs b ∧ ∀ b', b' ∈ l → idle bs b' → (stamp_of bs b ≤ stamp_of bs b')%Z.
Proof. intros H. pose proof (lru_spec bs l) as Hs. by rewrite H in Hs. Qed.

Lemma lru_None (bs : list buf) (l : list nat) :
  lru bs l None = None ↔ ∀ b, b ∈ l → ¬ idle bs b.
Proof.
  split.
  - intros H. pose proof (lru_spec bs l) as Hs. by rewrite H in Hs.
  - intros Hno. destruct (lru bs l None) as [b|] eqn:H; [|done].
    apply lru_Some in H as (Hb & Hi & _). by destruct (Hno b Hb).
Qed.

Lemma cached_Some (bs : list buf) (l : list nat) (dv bn : Z) (b : nat) :
  cached bs l dv bn = Some b →
  ∃ x pre post, bs !! b = Some x ∧ dev x = dv ∧ blockno x = bn ∧
    l = pre ++ b :: post ∧
    ∀ b' x', b' ∈ pre → bs !! b' = Some x' → ¬ (dev x' = dv ∧ blockno x' = bn).
Proof.
  induction l as [|c l IH]; simpl; [done|].
  destruct (bs !! c) as [y|] eqn:Hy.
  - destruct (dev y =? dv)%Z eqn:Hd; simpl.
    + destruct (blockno y =? bn)%Z eqn:Hb; simpl.
      * intros [= <-]. apply Z.eqb_eq in Hd, Hb.
        exists y, [], l. repeat split; try done.
        intros b' x' Hin. by apply elem_of_nil in Hin.
      * intros H. destruct (IH H) as (x & pre & post & Hx & Hxd & Hxb & -> & Hpre).
        exists x, (c :: pre), post. repeat split; try done.
        intros b' x' Hin Hx' Hm. apply elem_of_cons in Hin as [->|Hin].
        -- apply Z.eqb_neq in Hb. destruct Hm. congruence.
        -- exact (Hpre b' x' Hin Hx' Hm).
    + intros H. destruct (IH H) as (x & pre & post & Hx & Hxd & Hxb & -> & Hpre).
      exists x, (c :: pre), post. repeat split; try done.
      intros b' x' Hin Hx' Hm. apply elem_of_cons in Hin as [->|Hin].
      * apply Z.eqb_neq in Hd. destruct Hm. congruence.
      * exact (Hpre b' x' Hin Hx' Hm).
  - intros H. destruct (IH H) as (x & pre & post & Hx & Hxd & Hxb & -> & Hpre).
    exists x, (c :: pre), post. repeat split; try done.
    intros b' x' Hin Hx' Hm. apply elem_of_cons in Hin as [->|Hin].
    + congruence.
    + exact (Hpre b' x' Hin Hx' Hm).
Qed.

Lemma cached_None (bs : list buf) (l : list nat) (dv bn : Z) :
  cached bs l dv bn = None ↔
  ∀ b x, b ∈ l → bs !! b = Some x → ¬ (dev x = dv ∧ blockno x = bn).
Proof.
  induction l as [|c l [IH1 IH2]]; simpl.
  - split; [|done]. intros _ b x Hin. by apply elem_of_nil in Hin.
  - destruct (bs !! c) as [y|] eqn:Hy.
    + destruct ((dev y =? dv)%Z && (blockno y =? bn)%Z)%bool eqn:Hm.
      * split; [done|]. intros H. exfalso.
        apply andb_true_iff in Hm as [Hd Hb]. apply Z.eqb_eq in Hd, Hb.
        apply (H c y); [apply list_elem_of_here|done|done].
      * split.
        -- intros H b x Hin Hx [Hd Hb]. apply elem_of_cons in Hin as [->|Hin].
           ++ assert (x = y) as -> by congruence.
              apply andb_false_iff in Hm as [Hm|Hm]; apply Z.eqb_neq in Hm; done.
           ++ exact (IH1 H b x Hin Hx (conj Hd Hb)).
        -- intros H. apply IH2. intros b x Hin. apply H.
           by apply list_elem_of_further.
    + split.
      * intros H b x Hin Hx. apply elem_of_cons in Hin as [->|Hin]; [congruence|].
        exact (IH1 H b x Hin Hx).
      * intros H. apply IH2. intros b x Hin. apply H.
        by apply list_elem_of_further.
Qed.

(** ** The collaborators, step by step *)

Lemma acquire_Ret (t : tid) (i : nat) (s s' : kstate) (u : unit) :
  acquire t i s = Ret u s' →
  lock s !! i = Some None ∧
  s' = set_lock <[i := Some t]> (log (EvAcquire t (ShardLock i)) s).
Proof.
  unfold acquire. destruct (lock s !! i) as [[h|]|]; [done| |done].
  by intros [= <- <-].
Qed.

Lemma acquire_free (t : tid) (i : nat) (s : kstate) :
  lock s !! i = Some None →
  acquire t i s = Ret tt (set_lock <[i := Some t]> (log (EvAcquire t (ShardLock i)) s)).
Proof. unfold acquire. by intros ->. Qed.

Lemma acquire_held (t h : tid) (i : nat) (s : kstate) :
  lock s !! i = Some (Some h) →
  acquire t i s = Wait (ShardLock i) (log (EvAcquire t (ShardLock i)) s).
Proof. unfold acquire. by intros ->. Qed.

Lemma acquiresleep_Ret (t : tid) (b : nat) (s s' : kstate) (u : unit) :
  acquiresleep t b s = Ret u s' →
  ∃ x, bufs s !! b = Some x ∧ sleeplock x = None ∧
       s' = set_bufs <[b := with_sleeplock (Some t) x]>
              (log (EvAcquire t (SleepLock b)) s).
Proof.
  unfold acquiresleep, bind, getbuf.
  destruct (bufs s !! b) as [x|] eqn:Hx; [|done].
  destruct (sleeplock x) eqn:Hl; [done|].
  intros [= <- <-]. exists x. split; [done|]. split; [done|].
  unfold set_bufs. simpl. by rewrite (alter_lookup_insert _ _ _ x).
Qed.

Lemma stamp_Ret (t : tid) (b : nat) (s s' : kstate) (u : unit) :
  stamp t b s = Ret u s' →
  tickslock s = None ∧
  s' = set_tickslock None (log (EvRelease t TicksLock)
         (set_bufs (alter (with_timestamp (ticks s)) b)
            (set_tickslock (Some t) (log (EvAcquire t TicksLock) s)))).
Proof.
  unfold stamp, bind, acquire_ticks.
  destruct (tickslock s) eqn:Hl; [done|]. simpl.
  by intros [= <- <-].
Qed.

(** ** Recycling a candidate *)

Lemma recycle_Ret (t : tid) (dv bn : Z) (id i b b' : nat) (s s' : kstate) :
  recycle t dv bn id i b s = Ret b' s' →
  b' = b ∧ tickslock s = None ∧
  ∃ x, bufs s !! b = Some x ∧ sleeplock x = None ∧
    bufs s' = <[b := mkbuf 0 dv bn (Some t) 1 (ticks s) (data x)]> (bufs s) ∧
    table s' = (if decide (i ≠ id)
                then push_front id b (alter (unlink b) i (table s))
                else table s) ∧
    lock s' = <[id := None]> (if decide (i ≠ id) then <[i := None]> (lock s)
                              else lock s) ∧
    tickslock s' = None ∧ ticks s' = ticks s ∧ disk s' = disk s.
Proof.
  unfold recycle, bind, modbuf, modify, release, ret. intros H.
  destruct (decide (i ≠ id)) as [Hne|Heq]; simpl in H.
  all: destruct (stamp t b _) as [u s2| | |] eqn:Hst in H; try done.
  all: apply stamp_Ret in Hst as [Htl ->]; simpl in *.
  all: destruct (acquiresleep t b _) as [u' s3| | |] eqn:Hsl in H; try done.
  all: apply acquiresleep_Ret in Hsl as (y & Hy & Hyl & ->); simpl in *.
  all: injection H as <- <-; simpl.
  all: rewrite !list_lookup_alter_eq in Hy.
  all: destruct (bufs s !! b) as [x|] eqn:Hx; [|done]; simpl in Hy.
  all: injection Hy as <-; simpl in *.
  all: split; [done|]; split; [done|]; exists x.
  all: split; [done|]; split; [done|]; split; [|done].
  all: rewrite !list_alter_alter_eq, (alter_lookup_insert _ _ _ x Hx).
  all: by rewrite list_insert_insert_eq.
Qed.

(** ** The scan over the buckets *)

Lemma scan_Ret (t : tid) (dv bn : Z) (id : nat) :
  ∀ (n i : nat) (s : kstate) (b : nat) (s' : kstate),
  scan t dv bn id i n s = Ret b s' →
  ∃ pre j post s1,
    order i n = pre ++ j :: post ∧
    (∀ j', j' ∈ pre → skipped t id s j' ∨ no_idle s j') ∧
    (j ≠ id → lock s !! j = Some None) ∧
    same_cache s s1 ∧
    lock s1 = (if decide (j ≠ id) then <[j := Some t]> (lock s) else lock s) ∧
    lru (bufs s) (bucket s j) None = Some b ∧
    recycle t dv bn id j b s1 = Ret b s'.
Proof.
  induction n as [|n IH]; intros i s b s' H; [done|].
  cbn [scan order] in *. unfold bind, get in H. cbn beta iota in H.
  destruct (decide (i = id)) as [->|Hne].
  - (* the home bucket, whose lock is already held *)
    rewrite bool_decide_eq_false_2 in H by (intros ?; done).
    destruct (decide (id ≠ id)) as [?|_]; [done|]. simpl in H.
    destruct (lru (bufs s) (bucket s id) None) as [c|] eqn:Hlru.
    + assert (c = b) as ->.
      { by destruct (recycle_Ret _ _ _ _ _ _ _ _ _ H) as [-> _]. }
      exists [], id, (order ((id + 1) mod NBUCKET) n), s.
      split; [done|]. split; [intros j' Hj'; by apply elem_of_nil in Hj'|].
      split; [done|]. split; [done|].
      destruct (decide (id ≠ id)); done.
    + destruct (IH _ _ _ _ H)
        as (pre & j & post & s1 & Hord & Hpre & Hfree & Hsame & Hlk & Hl & Hrec).
      exists (id :: pre), j, post, s1. rewrite Hord.
      split; [done|]. split; [|done].
      intros j' Hj'. apply elem_of_cons in Hj' as [->|Hj']; [|by apply Hpre].
      right. intros c x Hc Hx Hr. apply (proj1 (lru_None _ _) Hlru c Hc). by exists x.
  - rewrite bool_decide_eq_true_2 in H by done.
    destruct (holding t i s) eqn:Hh; simpl in H.
    + (* a bucket whose lock the caller holds is passed over *)
      destruct (IH _ _ _ _ H)
        as (pre & j & post & s1 & Hord & Hpre & Hfree & Hsame & Hlk & Hl & Hrec).
      exists (i :: pre), j, post, s1. rewrite Hord.
      split; [done|]. split; [|done].
      intros j' Hj'. apply elem_of_cons in Hj' as [->|Hj']; [|by apply Hpre].
      left. split; [done|]. unfold holding in Hh. by apply bool_decide_eq_true in Hh.
    + destruct (decide (i ≠ id)) as [_|?]; [|done].
      destruct (acquire t i s) as [u s0| | |] eqn:Hacq; try done.
      apply acquire_Ret in Hacq as [Hlock ->].
      change (bufs (set_lock _ _)) with (bufs s) in H.
      change (bucket (set_lock _ _) i) with (bucket s i) in H.
      destruct (lru (bufs s) (bucket s i) None) as [c|] eqn:Hlru.
      * assert (c = b) as ->.
        { by destruct (recycle_Ret _ _ _ _ _ _ _ _ _ H) as [-> _]. }
        eexists [], i, (order ((i + 1) mod NBUCKET) n), _.
        split; [done|]. split; [intros j' Hj'; by apply elem_of_nil in Hj'|].
        split; [done|]. split; [|split; [|split; [done|exact H]]].
        -- done.
        -- destruct (decide (i ≠ id)); done.
      * unfold release, modify in H. simpl in H.
        destruct (IH _ _ _ _ H)
          as (pre & j & post & s1 & Hord & Hpre & Hfree & Hsame & Hlk & Hl & Hrec).
        unfold skipped, no_idle, bucket, same_cache in *. simpl in *.
        rewrite (insert_restore _ _ None (Some t) Hlock) in *.
        exists (i :: pre), j, post, s1. rewrite Hord.
        split; [done|]. split; [|done].
        intros j' Hj'. apply elem_of_cons in Hj' as [->|Hj']; [|by apply Hpre].
        right. intros c x Hc Hx Hr. apply (proj1 (lru_None _ _) Hlru c Hc). by exists x.
Qed.

Lemma scan_Panic (t : tid) (dv bn : Z) (id : nat) :
  ∀ (n i : nat) (s : kstate),
  (∀ j, j ∈ order i n → j ≠ id →
        lock s !! j = Some None ∨ lock s !! j = Some (Some t)) →
  (∀ j, j ∈ order i n → skipped t id s j ∨ no_idle s j) →
  ∃ s', scan t dv bn id i n s = Panic "bget: no buffers" s' ∧
        same_cache s s' ∧ lock s' = lock s ∧
        trace s' = trace s ++ flat_map (visit t id s) (order i n).
Proof.
  induction n as [|n IH]; intros i s Hlocks Hidle.
  - exists s. simpl. by rewrite app_nil_r.
  - cbn [scan order flat_map]. unfold bind, get. cbn beta iota.
    assert (i ∈ i :: order ((i + 1) mod NBUCKET) n) as Hi by apply list_elem_of_here.
    unfold visit at 1.
    destruct (decide (i = id)) as [->|Hne].
    + rewrite bool_decide_eq_false_2 by (intros ?; done).
      destruct (decide (id ≠ id)) as [?|_]; [done|]. simpl.
      destruct (Hidle id Hi) as [[? _]|Hno]; [done|].
      assert (lru (bufs s) (bucket s id) None = None) as ->.
      { apply lru_None. intros c Hc (x & Hx & Hr). by apply (Hno c x). }
      apply IH; intros j Hj; [apply Hlocks|apply Hidle];
        by apply list_elem_of_further.
    + rewrite bool_decide_eq_true_2 by done.
      destruct (holding t i s) eqn:Hh; simpl.
      * apply IH; intros j Hj; [apply Hlocks|apply Hidle];
        by apply list_elem_of_further.
      * destruct (decide (i ≠ id)) as [_|?]; [|done].
        assert (lock s !! i = Some None) as Hfree.
        { destruct (Hlocks i Hi Hne) as [?|Hself]; [done|].
          unfold holding in Hh. apply bool_decide_eq_false in Hh. done. }
        rewrite (acquire_free _ _ _ Hfree).
        change (bufs (set_lock _ _)) with (bufs s).
        change (bucket (set_lock _ _) i) with (bucket s i).
        assert (lru (bufs s) (bucket s i) None = None) as ->.
        { apply lru_None. intros c Hc (x & Hx & Hr).
          destruct (Hidle i Hi) as [[_ Hself]|Hno]; [congruence|].
          by apply (Hno c x). }
        unfold release, modify. simpl.
        match goal with |- ∃ s', scan _ _ _ _ _ _ ?s2 = _ ∧ _ =>
          destruct (IH ((i + 1) mod NBUCKET) s2) as (s' & Hscan & Hsame & Hlk & Htr)
        end.
        { intros j Hj Hjne. simpl.
          rewrite (insert_restore _ _ None (Some t) Hfree).
          apply Hlocks; [by apply list_elem_of_further|done]. }
        { intros j Hj. unfold skipped, no_idle, bucket. simpl.
          rewrite (insert_restore _ _ None (Some t) Hfree).
          apply Hidle. by apply list_elem_of_further. }
        exists s'. split; [done|].
        unfold same_cache in *. simpl in *.
        rewrite (insert_restore _ _ None (Some t) Hfree) in Hlk.
        split; [done|]. split; [done|].
        rewrite Htr, <- !app_assoc. simpl. do 3 f_equal.
        apply flat_map_ext. intros j. unfold visit, holding. simpl.
        by rewrite (insert_restore _ _ None (Some t) Hfree).
Qed.

(** ** [bget] *)

Lemma locks_restored (l : list (option tid)) (t : tid) (id j : nat) :
  l !! id = Some None →
  (j ≠ id → l !! j = Some None) →
  <[id := None]>
    (if decide (j ≠ id)
     then <[j := None]> (<[j := Some t]> (<[id := Some t]> l))
     else <[id := Some t]> l) = l.
Proof.
  intros Hid Hj. destruct (decide (j ≠ id)) as [Hne|_].
  - rewrite list_insert_insert_eq.
    rewrite list_insert_insert_ne by done.
    rewrite list_insert_insert_eq.
    rewrite (list_insert_id _ j None);
      [by apply list_insert_id|].
    rewrite list_lookup_insert_ne by done. by apply Hj.
  - by apply insert_restore.
Qed.

Lemma bget_miss_scan (t : tid) (dv bn : Z) (s : kstate) (b : nat) (s' : kstate) :
  cached (bufs s) (bucket s (HASH bn)) dv bn = None →
  bget t dv bn s = Ret b s' →
  lock s !! HASH bn = Some None ∧
  scan t dv bn (HASH bn) (HASH bn) NBUCKET
    (set_lock <[HASH bn := Some t]> (log (EvAcquire t (ShardLock (HASH bn))) s))
  = Ret b s'.
Proof.
  intros Hmiss. unfold bget, bind, get.
  destruct (acquire t (HASH bn) s) as [u s0| | |] eqn:Hacq; try done.
  apply acquire_Ret in Hacq as [Hfree ->].
  change (bufs (set_lock _ _)) with (bufs s).
  change (bucket (set_lock _ _) (HASH bn)) with (bucket s (HASH bn)).
  by rewrite Hmiss.
Qed.

(** Everything a successful miss does, in terms of the state it started in:
    the bucket [j] the victim [b] was found in, the buckets [pre] scanned
    before it, the state [s1] in which the victim was chosen, and the state
    [s'] the call returns in. *)
Lemma bget_miss_select (t : tid) (dv bn : Z) (s : kstate) (b : nat) (s' : kstate) :
  cached (bufs s) (bucket s (HASH bn)) dv bn = None →
  bget t dv bn s = Ret b s' →
  ∃ pre j post s1 x,
    scan_order (HASH bn) = pre ++ j :: post ∧
    (∀ j', j' ∈ pre → skipped t (HASH bn) s j' ∨ no_idle s j') ∧
    lock s !! HASH bn = Some None ∧
    (j ≠ HASH bn → lock s !! j = Some None) ∧
    same_cache s s1 ∧
    lock s1 !! HASH bn = Some (Some t) ∧ lock s1 !! j = Some (Some t) ∧
    b ∈ bucket s j ∧ bufs s !! b = Some x ∧ refcnt x = 0%Z ∧
    sleeplock x = None ∧
    (∀ b' x', b' ∈ bucket s j → bufs s !! b' = Some x' → refcnt x' = 0%Z →
              (timestamp x ≤ timestamp x')%Z) ∧
    recycle t dv bn (HASH bn) j b s1 = Ret b s' ∧
    tickslock s = None ∧
    bufs s' = <[b := mkbuf 0 dv bn (Some t) 1 (ticks s) (data x)]> (bufs s) ∧
    table s' = (if decide (j ≠ HASH bn)
                then push_front (HASH bn) b (alter (unlink b) j (table s))
                else table s) ∧
    lock s' = lock s ∧ tickslock s' = None ∧ ticks s' = ticks s ∧
    disk s' = disk s.
Proof.
  intros Hmiss Hget.
  destruct (bget_miss_scan _ _ _ _ _ _ Hmiss Hget) as [Hhome Hscan].
  set (id := HASH bn) in *.
  apply scan_Ret in Hscan
    as (pre & j & post & s1 & Hord & Hpre & Hfree & Hsame & Hlk & Hlru & Hrec).
  unfold same_cache in Hsame. simpl in Hsame, Hlk, Hlru, Hfree.
  change (bucket (set_lock _ _) j) with (bucket s j) in Hlru.
  destruct Hsame as (Htb & Hbs & Htk & Htl & Hd).
  pose proof (recycle_Ret _ _ _ _ _ _ _ _ _ Hrec)
    as (_ & Htl1 & x & Hx & Hxl & Hbufs & Htable & Hlock & Htl' & Htk' & Hd').
  rewrite Hbs in Hx, Hbufs. rewrite Htk in Hbufs. rewrite Htb in Htable.
  apply lru_Some in Hlru as (Hin & (x0 & Hx0 & Hidle) & Hmin).
  assert (x0 = x) as -> by congruence.
  assert (id < length (lock s)) as Hidlen by (by eapply lookup_lt_Some).
  assert (j ≠ id → lock s !! j = Some None) as Hfree'.
  { intros Hne. specialize (Hfree Hne).
    by rewrite list_lookup_insert_ne in Hfree. }
  exists pre, j, post, s1, x.
  split; [done|]. split.
  { intros j' Hj'. destruct (Hpre j' Hj') as [[Hne Hself]|Hno]; [left|by right].
    split; [done|]. simpl in Hself. by rewrite list_lookup_insert_ne in Hself. }
  split; [done|]. split; [done|].
  split; [done|]. split.
  { rewrite Hlk. destruct (decide (j ≠ id)).
    - rewrite list_lookup_insert_ne by done. by apply list_lookup_insert_eq.
    - by apply list_lookup_insert_eq. }
  split.
  { rewrite Hlk. destruct (decide (j ≠ id)) as [Hne|Heq].
    - apply list_lookup_insert_eq. rewrite length_insert.
      eapply lookup_lt_Some. by apply Hfree'.
    - assert (j = id) as -> by (destruct (decide (j = id)); [done|by destruct Heq]).
      by apply list_lookup_insert_eq. }
  split; [done|]. split; [done|]. split; [done|]. split; [done|].
  split.
  { intros b' x' Hb' Hx' Hr'.
    assert (idle (bufs s) b') as Hi' by (by exists x').
    specialize (Hmin b' Hb' Hi'). unfold stamp_of in Hmin.
    by rewrite Hx, Hx' in Hmin. }
  split; [done|]. split; [congruence|]. split; [done|]. split; [done|].
  split.
  { rewrite Hlock, Hlk.
    replace (if decide (j ≠ id)
             then <[j:=None]> (if decide (j ≠ id)
                               then <[j:=Some t]> (<[id:=Some t]> (lock s))
                               else <[id:=Some t]> (lock s))
             else if decide (j ≠ id)
                  then <[j:=Some t]> (<[id:=Some t]> (lock s))
                  else <[id:=Some t]> (lock s))
      with (if decide (j ≠ id)
            then <[j:=None]> (<[j:=Some t]> (<[id:=Some t]> (lock s)))
            else <[id:=Some t]> (lock s))
      by (by destruct (decide (j ≠ id))).
    by apply locks_restored. }
  split; [done|]. split; [congruence|]. congruence.
Qed.

(** The hit path as a whole. *)
Lemma bget_hit_Ret (t : tid) (dv bn : Z) (s : kstate) (b : nat) (x : buf) :
  cached (bufs s) (bucket s (HASH bn)) dv bn = Some b →
  bufs s !! b = Some x →
  lock s !! HASH bn = Some None →
  sleeplock x = None →
  ∃ s', bget t dv bn s = Ret b s' ∧
    bufs s' = <[b := mkbuf (valid x) (dev x) (blockno x) (Some t)
                       (uint (refcnt x + 1)) (timestamp x) (data x)]> (bufs s) ∧
    table s' = table s ∧ lock s' = lock s ∧ tickslock s' = tickslock s ∧
    ticks s' = ticks s ∧ disk s' = disk s ∧
    trace s' = trace s ++ [EvAcquire t (ShardLock (HASH bn));
                           EvRelease t (ShardLock (HASH bn));
                           EvAcquire t (SleepLock b)].
Proof.
  intros Hhit Hx Hfree Hsl. unfold bget, bind, get.
  rewrite (acquire_free _ _ _ Hfree).
  change (bufs (set_lock _ _)) with (bufs s).
  change (bucket (set_lock _ _) (HASH bn)) with (bucket s (HASH bn)).
  rewrite Hhit. unfold modbuf, modify, release, acquiresleep, bind, getbuf, ret.
  simpl. rewrite list_lookup_alter_eq, Hx. simpl. rewrite Hsl.
  eexists. split; [reflexivity|]. simpl.
  split.
  { rewrite list_alter_alter_eq, (alter_lookup_insert _ _ _ x Hx). done. }
  split; [done|]. split; [by apply insert_restore|].
  split; [done|]. split; [done|]. split; [done|].
  by rewrite <- !app_assoc.
Qed.

Lemma bget_hit_inv (t : tid) (dv bn : Z) (s : kstate) (b b' : nat) (s' : kstate) :
  cached (bufs s) (bucket s (HASH bn)) dv bn = Some b →
  bget t dv bn s = Ret b' s' →
  b' = b ∧ lock s !! HASH bn = Some None ∧
  ∃ x, bufs s !! b = Some x ∧ sleeplock x = None.
Proof.
  intros Hhit. unfold bget, bind, get.
  destruct (acquire t (HASH bn) s) as [u s0| | |] eqn:Hacq; try done.
  apply acquire_Ret in Hacq as [Hfree ->].
  change (bufs (set_lock _ _)) with (bufs s).
  change (bucket (set_lock _ _) (HASH bn)) with (bucket s (HASH bn)).
  rewrite Hhit. unfold modbuf, modify, release, ret. simpl.
  destruct (acquiresleep t b _) as [u' s3| | |] eqn:Hsl; try done.
  apply acquiresleep_Ret in Hsl as (y & Hy & Hyl & ->). simpl in *.
  intros [= <- <-]. split; [done|]. split; [done|].
  rewrite list_lookup_alter_eq in Hy.
  destruct (bufs s !! b) as [x|]; [|done]. simpl in Hy. injection Hy as <-.
  by exists x.
Qed.

(** ** [brelse], [bpin], [bunpin], [bwrite] and [bread] *)

Lemma brelse_ok (t : tid) (b : nat) (s : kstate) (x : buf) :
  bufs s !! b = Some x →
  sleeplock x = Some t →
  lock s !! HASH (blockno x) = Some None →
  tickslock s = None →
  ∃ s', brelse t b s = Ret tt s' ∧
    bufs s' = <[b := mkbuf (valid x) (dev x) (blockno x) None
                       (uint (refcnt x - 1)) (ticks s) (data x)]> (bufs s) ∧
    table s' = table s ∧ lock s' = lock s ∧ tickslock s' = None ∧
    ticks s' = ticks s ∧ disk s' = disk s.
Proof.
  intros Hb Hl Hk Ht.
  unfold brelse, bind, getbuf. rewrite Hb.
  unfold holdingsleep. rewrite bool_decide_eq_true_2 by done. simpl.
  unfold acquire. simpl. rewrite Hk. simpl.
  unfold stamp, bind, acquire_ticks. simpl. rewrite Ht. simpl.
  eexists. split; [reflexivity|]. simpl.
  split; [|by rewrite insert_restore].
  by rewrite !list_alter_alter_eq, (alter_lookup_insert _ _ _ x Hb).
Qed.

Lemma brelse_Ret (t : tid) (b : nat) (s s' : kstate) (u : unit) :
  brelse t b s = Ret u s' →
  ∃ x, bufs s !! b = Some x ∧ sleeplock x = Some t ∧
       lock s !! HASH (blockno x) = Some None ∧ tickslock s = None.
Proof.
  unfold brelse, bind, getbuf.
  destruct (bufs s !! b) as [x|] eqn:Hx; [|done].
  unfold holdingsleep. destruct (bool_decide (sleeplock x = Some t)) eqn:Hh; [|done].
  apply bool_decide_eq_true in Hh. simpl.
  unfold acquire. simpl.
  destruct (lock s !! HASH (blockno x)) as [[h|]|] eqn:Hk; try done. simpl.
  unfold stamp, bind, acquire_ticks. simpl.
  destruct (tickslock s) eqn:Htl; [done|]. intros _. by exists x.
Qed.

Lemma bpin_ok (t : tid) (b : nat) (s : kstate) (x : buf) :
  bufs s !! b = Some x →
  lock s !! HASH (blockno x) = Some None →
  ∃ s', bpin t b s = Ret tt s' ∧
    bufs s' = <[b := with_refcnt (uint (refcnt x + 1)) x]> (bufs s) ∧
    table s' = table s ∧ lock s' = lock s ∧ tickslock s' = tickslock s ∧
    ticks s' = ticks s ∧ disk s' = disk s.
Proof.
  intros Hb Hk. unfold bpin, bind, getbuf. rewrite Hb.
  unfold acquire. rewrite Hk. simpl.
  eexists. split; [reflexivity|]. simpl.
  split; [|by rewrite insert_restore].
  by rewrite (alter_lookup_insert _ _ _ x Hb).
Qed.

Lemma bpin_Ret (t : tid) (b : nat) (s s' : kstate) (u : unit) :
  bpin t b s = Ret u s' →
  ∃ x, bufs s !! b = Some x ∧ lock s !! HASH (blockno x) = Some None.
Proof.
  unfold bpin, bind, getbuf.
  destruct (bufs s !! b) as [x|] eqn:Hx; [|done].
  unfold acquire.
  destruct (lock s !! HASH (blockno x)) as [[h|]|] eqn:Hk; try done.
  intros _. by exists x.
Qed.

Lemma bunpin_ok (t : tid) (b : nat) (s : kstate) (x : buf) :
  bufs s !! b = Some x →
  lock s !! HASH (blockno x) = Some None →
  ∃ s', bunpin t b s = Ret tt s' ∧
    bufs s' = <[b := with_refcnt (uint (refcnt x - 1)) x]> (bufs s) ∧
    table s' = table s ∧ lock s' = lock s ∧ tickslock s' = tickslock s ∧
    ticks s' = ticks s ∧ disk s' = disk s.
Proof.
  intros Hb Hk. unfold bunpin, bind, getbuf. rewrite Hb.
  unfold acquire. rewrite Hk. simpl.
  eexists. split; [reflexivity|]. simpl.
  split; [|by rewrite insert_restore].
  by rewrite (alter_lookup_insert _ _ _ x Hb).
Qed.

Lemma bunpin_Ret (t : tid) (b : nat) (s s' : kstate) (u : unit) :
  bunpin t b s = Ret u s' →
  ∃ x, bufs s !! b = Some x ∧ lock s !! HASH (blockno x) = Some None.
Proof.
  unfold bunpin, bind, getbuf.
  destruct (bufs s !! b) as [x|] eqn:Hx; [|done].
  unfold acquire.
  destruct (lock s !! HASH (blockno x)) as [[h|]|] eqn:Hk; try done.
  intros _. by exists x.
Qed.

Lemma bwrite_ok (t : tid) (b : nat) (s : kstate) (x : buf) :
  bufs s !! b = Some x →
  sleeplock x = Some t →
  bwrite t b s =
    Ret tt (set_disk <[(dev x, blockno x) := data x]> (log (EvDisk t b true) s)).
Proof.
  intros Hb Hl. unfold bwrite, bind, getbuf. rewrite Hb.
  unfold holdingsleep. rewrite bool_decide_eq_true_2 by done. simpl.
  unfold virtio_disk_rw, bind, getbuf. by rewrite Hb.
Qed.

Lemma bwrite_Ret (t : tid) (b : nat) (s s' : kstate) (u : unit) :
  bwrite t b s = Ret u s' →
  ∃ x, bufs s !! b = Some x ∧ sleeplock x = Some t.
Proof.
  unfold bwrite, bind, getbuf.
  destruct (bufs s !! b) as [x|] eqn:Hx; [|done].
  unfold holdingsleep. destruct (bool_decide (sleeplock x = Some t)) eqn:Hh; [|done].
  apply bool_decide_eq_true in Hh. intros _. by exists x.
Qed.

(** [bget] returns a buffer of the pool, locked by the caller. *)
Lemma bget_Ret_locked (t : tid) (dv bn : Z) (s : kstate) (b : nat) (s' : kstate) :
  bget t dv bn s = Ret b s' →
  ∃ x, bufs s' !! b = Some x ∧ sleeplock x = Some t ∧ dev x = dv ∧ blockno x = bn.
Proof.
  intros Hget.
  destruct (cached (bufs s) (bucket s (HASH bn)) dv bn) as [c|] eqn:Hc.
  - destruct (bget_hit_inv _ _ _ _ _ _ _ Hc Hget) as (-> & Hfree & x & Hx & Hsl).
    destruct (bget_hit_Ret t _ _ _ _ _ Hc Hx Hfree Hsl) as (s2 & Hget2 & Hb & _).
    rewrite Hget in Hget2. injection Hget2 as <-.
    apply cached_Some in Hc as (x0 & _ & _ & Hx0 & Hd & Hbn & _).
    assert (x0 = x) as -> by congruence.
    eexists. rewrite Hb. split.
    + apply list_lookup_insert_eq. by eapply lookup_lt_Some.
    + done.
  - destruct (bget_miss_select _ _ _ _ _ _ Hc Hget)
      as (_ & _ & _ & _ & x & _ & _ & _ & _ & _ & _ & _ & _ & Hx & _ & _ & _
          & _ & _ & Hb & _).
    eexists. rewrite Hb. split.
    + apply list_lookup_insert_eq. by eapply lookup_lt_Some.
    + done.
Qed.

(** [bread] after [bget] has returned [b] in state [s1]. *)
Lemma bread_after_bget (t : tid) (dv bn : Z) (s : kstate) (b : nat) (s1 : kstate)
    (x : buf) :
  bget t dv bn s = Ret b s1 →
  bufs s1 !! b = Some x →
  bread t dv bn s =
    if (valid x =? 0)%Z
    then Ret b (set_bufs
                  <[b := with_valid 1
                           (with_data (default [] (disk s1 !! (dev x, blockno x))) x)]>
                  (log (EvDisk t b false) s1))
    else Ret b s1.
Proof.
  intros Hget Hx. unfold bread, bind. rewrite Hget. unfold getbuf. rewrite Hx.
  destruct (valid x =? 0)%Z; [|done].
  unfold virtio_disk_rw, bind, getbuf, modify, modbuf, get, modify, ret.
  rewrite Hx. simpl. f_equal. unfold set_bufs, log. simpl. f_equal.
  rewrite list_alter_alter_eq. by rewrite (alter_lookup_insert _ _ _ x Hx).
Qed.

(** ** The placement invariant *)

Lemma inv_frame (s s' : kstate) :
  inv s →
  table s' = table s →
  length (lock s') = length (lock s) →
  (∀ b, (HASH ∘ blockno) <$> bufs s' !! b = (HASH ∘ blockno) <$> bufs s !! b) →
  inv s'.
Proof.
  intros [Ht Hl Hnd Hpl Hrg] Htb Hlk Hbn.
  assert (∀ i, bucket s' i = bucket s i) as Hbk.
  { intros i. unfold bucket. by rewrite Htb. }
  split.
  - by rewrite Htb.
  - by rewrite Hlk.
  - intros i. rewrite Hbk. apply Hnd.
  - intros b x' Hx' i. rewrite Hbk.
    specialize (Hbn b). rewrite Hx' in Hbn. simpl in Hbn.
    destruct (bufs s !! b) as [x|] eqn:Hx; [|done].
    injection Hbn as Hbn. rewrite Hbn. by apply Hpl.
  - intros i b Hb. rewrite Hbk in Hb. specialize (Hrg i b Hb).
    apply lookup_lt_is_Some in Hrg as [x Hx].
    specialize (Hbn b). rewrite Hx in Hbn.
    destruct (bufs s' !! b) as [x'|] eqn:Hx'; [|done].
    by eapply lookup_lt_Some.
Qed.

Lemma insert_same_home (l : list buf) (b : nat) (x y : buf) :
  l !! b = Some x → HASH (blockno y) = HASH (blockno x) →
  ∀ k, (HASH ∘ blockno) <$> <[b := y]> l !! k = (HASH ∘ blockno) <$> l !! k.
Proof.
  intros Hx Hy k. destruct (decide (b = k)) as [<-|Hne].
  - rewrite list_lookup_insert_eq by (by eapply lookup_lt_Some).
    rewrite Hx. simpl. by rewrite Hy.
  - by rewrite list_lookup_insert_ne.
Qed.

Lemma bucket_relocate (tb : list (list nat)) (id j b k : nat) :
  id < length tb → j ≠ id →
  default [] (push_front id b (alter (unlink b) j tb) !! k) =
    if decide (k = id) then b :: default [] (tb !! id)
    else if decide (k = j) then unlink b (default [] (tb !! j))
    else default [] (tb !! k).
Proof.
  intros Hid Hne. unfold push_front.
  destruct (decide (k = id)) as [->|Hk].
  - rewrite list_lookup_alter_eq, list_lookup_alter_ne by done.
    destruct (lookup_lt_is_Some_2 tb id Hid) as [l ->]. done.
  - rewrite list_lookup_alter_ne by done.
    destruct (decide (k = j)) as [->|Hkj].
    + rewrite list_lookup_alter_eq. by destruct (tb !! j).
    + by rewrite list_lookup_alter_ne.
Qed.

Lemma elem_of_unlink (b c : nat) (l : list nat) :
  c ∈ unlink b l ↔ c ≠ b ∧ c ∈ l.
Proof. unfold unlink. by rewrite list_elem_of_filter. Qed.

Lemma bget_inv (t : tid) (dv bn : Z) (s : kstate) (b : nat) (s' : kstate) :
  inv s → bget t dv bn s = Ret b s' → inv s'.
Proof.
  intros Hinv Hget.
  destruct (cached (bufs s) (bucket s (HASH bn)) dv bn) as [c|] eqn:Hc.
  - destruct (bget_hit_inv _ _ _ _ _ _ _ Hc Hget) as (-> & Hfree & x & Hx & Hsl).
    destruct (bget_hit_Ret t _ _ _ _ _ Hc Hx Hfree Hsl)
      as (s2 & Hget2 & Hb & Htb & Hlk & _).
    rewrite Hget in Hget2. injection Hget2 as <-.
    apply (inv_frame s); [done|done|by rewrite Hlk|].
    rewrite Hb. by apply (insert_same_home _ _ x).
  - destruct (bget_miss_select _ _ _ _ _ _ Hc Hget)
      as (pre & j & post & s1 & x & _ & _ & _ & _ & _ & _ & _ & Hin & Hx & _ & _
          & _ & _ & _ & Hb & Htb & Hlk & _).
    destruct Hinv as [Ht Hl Hnd Hpl Hrg].
    assert (HASH (blockno x) = j) as Hj by (symmetry; by apply (Hpl b x Hx j)).
    assert (b < length (bufs s)) as Hblt by (by eapply lookup_lt_Some).
    destruct (decide (j ≠ HASH bn)) as [Hne|Heq].
    + assert (HASH bn < length (table s)) as Hid by (rewrite Ht; apply HASH_lt).
      assert (∀ k, bucket s' k =
                if decide (k = HASH bn) then b :: bucket s (HASH bn)
                else if decide (k = j) then unlink b (bucket s j)
                else bucket s k) as Hbk.
      { intros k. unfold bucket. rewrite Htb. by apply bucket_relocate. }
      assert (b ∉ bucket s (HASH bn)) as Hnotin.
      { intros Hb'. apply (Hpl b x Hx) in Hb'. congruence. }
      split.
      * rewrite Htb. unfold push_front. by rewrite !length_alter.
      * by rewrite Hlk.
      * intros k. rewrite Hbk. destruct (decide (k = HASH bn)).
        -- apply NoDup_cons. split; [done|apply Hnd].
        -- destruct (decide (k = j)); [apply NoDup_filter|]; apply Hnd.
      * intros c y Hy k. rewrite Hbk. rewrite Hb in Hy.
        destruct (decide (c = b)) as [->|Hcb].
        -- rewrite list_lookup_insert_eq in Hy by done. injection Hy as <-. simpl.
           destruct (decide (k = HASH bn)) as [->|Hk].
           ++ split; [done|]. intros _. by apply list_elem_of_here.
           ++ split; [|done]. destruct (decide (k = j)) as [->|Hkj].
              ** rewrite elem_of_unlink. by intros [? _].
              ** intros Hb'. apply (Hpl b x Hx) in Hb'. congruence.
        -- rewrite list_lookup_insert_ne in Hy by done.
           rewrite <- (Hpl c y Hy k).
           destruct (decide (k = HASH bn)) as [->|Hk].
           ++ rewrite elem_of_cons. split; [intros [?|?]; done|by right].
           ++ destruct (decide (k = j)) as [->|Hkj]; [|done].
              rewrite elem_of_unlink. split; [by intros [_ ?]|done].
      * intros k c. rewrite Hbk, Hb, length_insert.
        destruct (decide (k = HASH bn)) as [->|Hk].
        -- rewrite elem_of_cons. intros [->|Hc']; [done|by eapply Hrg].
        -- destruct (decide (k = j)) as [->|Hkj]; [|by apply Hrg].
           rewrite elem_of_unlink. intros [_ Hc']. by eapply Hrg.
    + assert (j = HASH bn) as Hjid.
      { destruct (decide (j = HASH bn)); [done|by destruct Heq]. }
      apply (inv_frame s); [by split|done|by rewrite Hlk|].
      rewrite Hb. apply (insert_same_home _ _ x); [done|]. simpl. congruence.
Qed.

Lemma exec_inv (t : tid) (c : call) (s s' : kstate) (u : unit) :
  inv s → exec t c s = Ret u s' → inv s'.
Proof.
  intros Hinv. destruct c as [dv bn|b|b|b|b]; simpl.
  - unfold bind at 1. destruct (bread t dv bn s) as [b s2| | |] eqn:Hrd; try done.
    intros [= <-].
    assert (∃ s1, bget t dv bn s = Ret b s1) as [s1 Hget].
    { unfold bread, bind in Hrd.
      destruct (bget t dv bn s) as [b1 s1| | |] eqn:Hget; try done.
      destruct (getbuf b1 s1) as [x1 s3| | |]; try done.
      destruct (valid x1 =? 0)%Z.
      - destruct (virtio_disk_rw t b1 false s3) as [? ?| | |]; try done.
        unfold modbuf, modify, ret in Hrd. injection Hrd as <- _. by exists s1.
      - unfold ret in Hrd. injection Hrd as <- _. by exists s1. }
    pose proof (bget_inv _ _ _ _ _ _ Hinv Hget) as Hinv1.
    destruct (bget_Ret_locked _ _ _ _ _ _ Hget) as (x & Hx & _).
    rewrite (bread_after_bget _ _ _ _ _ _ x Hget Hx) in Hrd.
    destruct (valid x =? 0)%Z; simplify_eq; [|done].
    apply (inv_frame s1); [done|done|done|]. simpl.
    by apply (insert_same_home _ _ x).
  - intros Hw. destruct (bwrite_Ret _ _ _ _ _ Hw) as (x & Hx & Hsl).
    rewrite (bwrite_ok _ _ _ _ Hx Hsl) in Hw. simplify_eq.
    apply (inv_frame s); [done|reflexivity|reflexivity|intros k; reflexivity].
  - intros Hr. destruct (brelse_Ret _ _ _ _ _ Hr) as (x & Hx & Hsl & Hk & Htl).
    destruct (brelse_ok _ _ _ _ Hx Hsl Hk Htl) as (s2 & Hr2 & Hb & Htb & Hlk & _).
    rewrite Hr in Hr2. simplify_eq.
    apply (inv_frame s); [done|done|by rewrite Hlk|].
    rewrite Hb. by apply (insert_same_home _ _ x).
  - intros Hr. destruct (bpin_Ret _ _ _ _ _ Hr) as (x & Hx & Hk).
    destruct (bpin_ok t _ _ _ Hx Hk) as (s2 & Hr2 & Hb & Htb & Hlk & _).
    rewrite Hr in Hr2. simplify_eq.
    apply (inv_frame s); [done|done|by rewrite Hlk|].
    rewrite Hb. by apply (insert_same_home _ _ x).
  - intros Hr. destruct (bunpin_Ret _ _ _ _ _ Hr) as (x & Hx & Hk).
    destruct (bunpin_ok t _ _ _ Hx Hk) as (s2 & Hr2 & Hb & Htb & Hlk & _).
    rewrite Hr in Hr2. simplify_eq.
    apply (inv_frame s); [done|done|by rewrite Hlk|].
    rewrite Hb. by apply (insert_same_home _ _ x).
Qed.

(** [binit]: the second loop, over the buffers [l] still to be linked. *)
Lemma binit_links (l : list nat) (acc : kstate) :
  table (foldl link acc l) = alter (λ l0, reverse l ++ l0) 0 (table acc) ∧
  lock (foldl link acc l) = lock acc ∧
  (∀ k, blockno <$> bufs (foldl link acc l) !! k = blockno <$> bufs acc !! k).
Proof.
  revert acc. induction l as [|b l IH]; intros acc; simpl.
  - split; [|done]. symmetry. by apply list_alter_id.
  - destruct (IH (link acc b)) as (Htb & Hlk & Hbn).
    split; [|split; [done|]].
    + rewrite Htb. simpl. unfold push_front. rewrite list_alter_alter_eq.
      apply list_alter_ext; [|done]. intros l0 _. simpl.
      by rewrite reverse_cons, <- app_assoc.
    + intros k. rewrite Hbn. simpl.
      rewrite list_lookup_alter. case_decide; [subst k|done].
      by destruct (bufs acc !! b).
Qed.

Lemma binit_Ret (s : kstate) :
  ∃ s', binit s = Ret tt s' ∧
    table s' = <[0 := reverse (seq 0 (length (bufs s)))]> (replicate NBUCKET []) ∧
    lock s' = replicate NBUCKET None ∧
    (∀ k, blockno <$> bufs s' !! k = blockno <$> bufs s !! k).
Proof.
  unfold binit, bind, modify, get. simpl.
  eexists. split; [reflexivity|].
  match goal with |- context [foldl link ?acc ?l] =>
    destruct (binit_links l acc) as (Htb & Hlk & Hbn)
  end.
  rewrite Htb, Hlk. split; [|split; [done|]].
  - simpl. by rewrite app_nil_r.
  - intros k. by rewrite Hbn.
Qed.

Lemma binit_inv (s : kstate) :
  Forall (λ x, blockno x = 0%Z) (bufs s) →
  inv (final (binit s)) ∧
  ∀ b, b < length (bufs s) → b ∈ bucket (final (binit s)) 0.
Proof.
  intros Hz. destruct (binit_Ret s) as (s' & -> & Htb & Hlk & Hbn). simpl.
  assert (bucket s' 0 = reverse (seq 0 (length (bufs s)))) as Hb0.
  { unfold bucket. by rewrite Htb. }
  assert (∀ i, i ≠ 0 → bucket s' i = []) as Hbi.
  { intros i Hi. unfold bucket. rewrite Htb.
    rewrite list_lookup_insert_ne by done.
    destruct (replicate NBUCKET [] !! i) as [l|] eqn:Hl; [|done].
    by apply lookup_replicate in Hl as [-> _]. }
  assert (length (bufs s') = length (bufs s)) as Hlen.
  { apply Nat.le_antisymm.
    - apply Nat.le_ngt. intros Hlt.
      destruct (lookup_lt_is_Some_2 (bufs s') (length (bufs s))) as [x Hx]; [lia|].
      specialize (Hbn (length (bufs s))). rewrite Hx in Hbn.
      by rewrite lookup_ge_None_2 in Hbn.
    - apply Nat.le_ngt. intros Hlt.
      destruct (lookup_lt_is_Some_2 (bufs s) (length (bufs s'))) as [x Hx]; [lia|].
      specialize (Hbn (length (bufs s'))). rewrite Hx in Hbn.
      by rewrite lookup_ge_None_2 in Hbn. }
  split; [split|].
  - by rewrite Htb, length_insert, length_replicate.
  - by rewrite Hlk, length_replicate.
  - intros i. destruct (decide (i = 0)) as [->|Hi].
    + rewrite Hb0, reverse_Permutation. apply NoDup_seq.
    + rewrite Hbi by done. apply NoDup_nil_2.
  - intros b x Hx i.
    assert (blockno x = 0%Z) as Hx0.
    { specialize (Hbn b). rewrite Hx in Hbn. simpl in Hbn.
      destruct (bufs s !! b) as [y|] eqn:Hy; [|done].
      injection Hbn as ->. by eapply (proj1 (Forall_lookup _ _) Hz). }
    rewrite Hx0. change (HASH 0) with 0.
    destruct (decide (i = 0)) as [->|Hi].
    + split; [done|]. intros _. rewrite Hb0, elem_of_reverse, elem_of_seq.
      apply lookup_lt_Some in Hx. lia.
    + rewrite Hbi by done. split; [by intros ?%elem_of_nil|done].
  - intros i b. destruct (decide (i = 0)) as [->|Hi].
    + rewrite Hb0, elem_of_reverse, elem_of_seq. lia.
    + rewrite Hbi by done. by intros ?%elem_of_nil.
  - intros b Hb. rewrite Hb0, elem_of_reverse, elem_of_seq. lia.
Qed.

Lemma reachable_inv (s : kstate) : reachable s → inv s.
Proof.
  induction 1 as [nbuf|t c s s' _ IH Hex|s z _ IH].
  - apply binit_inv. unfold boot. simpl. apply Forall_replicate. done.
  - by eapply exec_inv.
  - by apply (inv_frame s).
Qed.

(** ** The scan order *)

Lemma scan_order_once (id : nat) :
  id < NBUCKET →
  NoDup (scan_order id) ∧ (∀ j, j ∈ scan_order id ↔ j < NBUCKET) ∧
  head (scan_order id) = Some id.
Proof.
  intros Hid.
  assert (Forall (λ i, NoDup (scan_order i) ∧
                       Forall (λ j, j < NBUCKET) (scan_order i) ∧
                       Forall (λ j, j ∈ scan_order i) (seq 0 NBUCKET))
                 (seq 0 NBUCKET)) as Hall.
  { apply (bool_decide_unpack _). vm_compute. exact I. }
  rewrite Forall_forall in Hall.
  destruct (Hall id) as (Hnd & Hlt & Hin).
  { apply elem_of_seq. lia. }
  split; [done|]. split; [|done].
  intros j. split.
  - intros Hj. by apply (proj1 (Forall_forall _ _) Hlt).
  - intros Hj. apply (proj1 (Forall_forall _ _) Hin). apply elem_of_seq. lia.
Qed.

(** ** The scenarios *)

Lemma run5_reachable : reachable run5.
Proof.
  apply reach_clock.
  apply (reach_call 1 (Cbrelse 0) (set_ticks 4 run3)); [|by vm_compute].
  apply reach_clock.
  apply (reach_call 1 (Cbread 1 2) (set_ticks 3 run2)); [|by vm_compute].
  apply reach_clock.
  apply (reach_call 1 (Cbrelse 1) (set_ticks 2 run1)); [|by vm_compute].
  apply reach_clock.
  apply (reach_call 1 (Cbread 1 1) (set_ticks 1 run0)); [|by vm_compute].
  apply reach_clock.
  apply reach_binit.
Qed.

Lemma full_cache_is_run5 :
  table full_cache = table run5 ∧ lock full_cache = lock run5 ∧
  bufs full_cache = bufs run5 ∧ ticks full_cache = ticks run5 ∧
  tickslock full_cache = tickslock run5 ∧ disk full_cache = disk run5.
Proof. by vm_compute. Qed.

Lemma full_cache_inv : inv full_cache.
Proof.
  destruct full_cache_is_run5 as (Htb & Hlk & Hbs & _).
  apply (inv_frame run5).
  - apply reachable_inv, run5_reachable.
  - done.
  - by rewrite Hlk.
  - intros b. by rewrite Hbs.
Qed.

(** ** Which buffer a miss recycles *)

Lemma mem_relocate (tb : list (list nat)) (id j b c k : nat) :
  c ≠ b →
  c ∈ default [] (push_front id b (alter (unlink b) j tb) !! k) ↔
  c ∈ default [] (tb !! k).
Proof.
  intros Hc. unfold push_front. rewrite !list_lookup_alter.
  destruct (decide (id = k)) as [->|Hk]; destruct (decide (j = k)) as [->|Hj];
    destruct (tb !! k) as [l|]; simpl;
    rewrite ?elem_of_cons, ?elem_of_unlink; tauto.
Qed.



(** Which buffer a miss that returns has recycled. On a miss that returns
    buffer [b], [b] comes
    from the first bucket [j] in scan order (from the home bucket onwards)
    that was not passed over and holds a buffer with [refcnt == 0]: every
    bucket [pre] before it was passed over or held no such buffer. [b] has
    [refcnt == 0] and the smallest [timestamp] among the buffers with
    [refcnt == 0] of bucket [j], hence of all buckets the scan locked.
    The buckets [post] later in scan order play no part. *)
Theorem bget_evicts_lru_of_first_bucket (t : tid) (dv bn : Z) (s : kstate)
    (b : nat) (s' : kstate) :
  cached (bufs s) (bucket s (HASH bn)) dv bn = None →
  bget t dv bn s = Ret b s' →
  ∃ pre j post x,
    scan_order (HASH bn) = pre ++ j :: post ∧
    (∀ j', j' ∈ pre → skipped t (HASH bn) s j' ∨ no_idle s j') ∧
    ¬ skipped t (HASH bn) s j ∧
    b ∈ bucket s j ∧ bufs s !! b = Some x ∧ refcnt x = 0%Z ∧
    (∀ b' x', b' ∈ bucket s j → bufs s !! b' = Some x' → refcnt x' = 0%Z →
              (timestamp x ≤ timestamp x')%Z) ∧
    (∀ j' b' x', j' ∈ pre ++ [j] → ¬ skipped t (HASH bn) s j' →
                 b' ∈ bucket s j' → bufs s !! b' = Some x' → refcnt x' = 0%Z →
                 (timestamp x ≤ timestamp x')%Z).
Proof.
  intros Hmiss Hget.
  destruct (bget_miss_select _ _ _ _ _ _ Hmiss Hget)
    as (pre & j & post & s1 & x & Hord & Hpre & _ & Hfree & _ & _ & _ & Hin & Hx
        & Hidle & _ & Hmin & _).
  exists pre, j, post, x.
  split; [done|]. split; [done|]. split.
  { intros [Hne Hself]. specialize (Hfree Hne). congruence. }
  split; [done|]. split; [done|]. split; [done|]. split; [done|].
  intros j' b' x' Hj' Hns Hb' Hx' Hr'.
  apply elem_of_app in Hj' as [Hj'|Hj'].
  - destruct (Hpre j' Hj') as [Hsk|Hno]; [done|]. by destruct (Hno b' x').
  - apply list_elem_of_singleton in Hj' as ->. by apply (Hmin b' x').
Qed.

Lemma bget_evicts_lru_of_first_bucket_witness :
  cached (bufs full_cache) (bucket full_cache (HASH 15)) 1 15 = None ∧
  bget 1 1 15 full_cache = Ret 0 (final (bget 1 1 15 full_cache)) ∧
  ∃ pre j post x,
    scan_order (HASH 15) = pre ++ j :: post ∧
    (∀ j', j' ∈ pre → skipped 1 (HASH 15) full_cache j' ∨ no_idle full_cache j') ∧
    ¬ skipped 1 (HASH 15) full_cache j ∧
    0 ∈ bucket full_cache j ∧ bufs full_cache !! 0 = Some x ∧ refcnt x = 0%Z ∧
    (∀ b' x', b' ∈ bucket full_cache j → bufs full_cache !! b' = Some x' →
              refcnt x' = 0%Z → (timestamp x ≤ timestamp x')%Z) ∧
    (∀ j' b' x', j' ∈ pre ++ [j] → ¬ skipped 1 (HASH 15) full_cache j' →
                 b' ∈ bucket full_cache j' → bufs full_cache !! b' = Some x' →
                 refcnt x' = 0%Z → (timestamp x ≤ timestamp x')%Z).
Proof.
  split; [by vm_compute|]. split; [by vm_compute|].
  apply (bget_evicts_lru_of_first_bucket 1 1 15 full_cache 0
           (final (bget 1 1 15 full_cache))); by vm_compute.
Defined.

(** The victim need not be the least recently used idle buffer of the
    cache. In [full_cache] no lock is held and both buffers
    are idle; buffer 1 has timestamp 2 and buffer 0 has timestamp 4. A
    request for block 15 misses in its home bucket 2, which holds buffer 0,
    and recycles buffer 0, not the buffer with the smallest timestamp. *)
Lemma bget_global_lru_counterexample :
  ¬ (∀ (t : tid) (dv bn : Z) (s : kstate) (b : nat) (s' : kstate) (x : buf),
       (∀ i, i < NBUCKET → lock s !! i = Some None) →
       cached (bufs s) (bucket s (HASH bn)) dv bn = None →
       bget t dv bn s = Ret b s' →
       bufs s !! b = Some x →
       ∀ b' x', bufs s !! b' = Some x' → refcnt x' = 0%Z →
                (timestamp x ≤ timestamp x')%Z).
Proof.
  intros Hclaim.
  specialize (Hclaim 1 1%Z 15%Z full_cache 0 (final (bget 1 1 15 full_cache))
                (mkbuf 1 1 2 None 0 4 [])).
  assert (4 ≤ 2)%Z as Habs; [|lia].
  refine (Hclaim _ _ _ _ 1 (mkbuf 1 1 1 None 0 2 []) _ _).
  - intros i Hi. change (lock full_cache) with (replicate NBUCKET (@None tid)).
    by apply lookup_replicate_2.
  - by vm_compute.
  - by vm_compute.
  - done.
  - done.
  - done.
Qed.

(** C1 fails on the code. The comments in [bget] announce "Recycle the least
    recently used (LRU) unused buffer", but the scan returns from the first
    bucket in scan order that holds an idle buffer. In [touch7], a state the
    cache reaches with no lock held, both buffers are idle: buffer 0 holds
    block 1, released at tick 4, and buffer 1 holds block 0, touched again
    and released at tick 6. A request for block 2 misses in its home bucket
    2, passes the empty buckets 3 to 12, finds buffer 1 in bucket 0 and
    recycles it: the block used last is evicted and the least recently used
    one, in bucket 1, which comes later in scan order, survives. The same
    happens in [full_cache], where the home bucket itself holds the younger
    buffer. *)
Theorem bget_recycles_recently_used :
  reachable touch7 ∧
  lock touch7 = replicate NBUCKET None ∧ tickslock touch7 = None ∧
  table touch7 = [[1]; [0]; []; []; []; []; []; []; []; []; []; []; []] ∧
  bufs touch7 = [mkbuf 1 1 1 None 0 4 []; mkbuf 1 1 0 None 0 6 []] ∧
  cached (bufs touch7) (bucket touch7 (HASH 2)) 1 2 = None ∧
  (∃ s', bget 1 1 2 touch7 = Ret 1 s' ∧
         table s' = [[]; [0]; [1]; []; []; []; []; []; []; []; []; []; []] ∧
         bufs s' = [mkbuf 1 1 1 None 0 4 []; mkbuf 0 1 2 (Some 1) 1 7 []]) ∧
  (∃ s', bget 1 1 15 full_cache = Ret 0 s' ∧
         bufs full_cache = [mkbuf 1 1 2 None 0 4 []; mkbuf 1 1 1 None 0 2 []] ∧
         bufs s' = [mkbuf 0 1 15 (Some 1) 1 5 []; mkbuf 1 1 1 None 0 2 []]).
Proof.
  split.
  { apply reach_clock.
    apply (reach_call 1 (Cbrelse 1) (set_ticks 6 touch5)); [|by vm_compute].
    apply reach_clock.
    apply (reach_call 1 (Cbread 1 0) (set_ticks 5 touch4)); [|by vm_compute].
    apply reach_clock.
    apply (reach_call 1 (Cbrelse 0) (set_ticks 4 touch3)); [|by vm_compute].
    apply reach_clock.
    apply (reach_call 1 (Cbread 1 1) (set_ticks 3 touch2)); [|by vm_compute].
    apply reach_clock.
    apply (reach_call 1 (Cbrelse 1) (set_ticks 2 touch1)); [|by vm_compute].
    apply reach_clock.
    apply (reach_call 1 (Cbread 1 0) (set_ticks 1 touch0)); [|by vm_compute].
    apply reach_clock. apply reach_binit. }
  do 5 (split; [by vm_compute|]).
  split.
  - exists (final (bget 1 1 2 touch7)). split; [by vm_compute|].
    split; by vm_compute.
  - exists (final (bget 1 1 15 full_cache)). split; [by vm_compute|].
    split; by vm_compute.
Qed.

(** ** The postcondition of a miss *)

(** C4. On a miss that returns buffer [b]: [b] carries the requested [dev]
    and [blockno], [valid == 0], [refcnt == 1], its timestamp is the current
    [ticks], it is on the list of the home bucket and of no other bucket,
    every bucket lock and [tickslock] is as it was before the call (what the
    scan took it has released; the home lock was free and is free again),
    and the caller holds the sleep lock of [b]. *)
Theorem bget_miss_postcondition (t : tid) (dv bn : Z) (s : kstate) (b : nat)
    (s' : kstate) :
  inv s →
  cached (bufs s) (bucket s (HASH bn)) dv bn = None →
  bget t dv bn s = Ret b s' →
  ∃ x', bufs s' !! b = Some x' ∧
    dev x' = dv ∧ blockno x' = bn ∧ valid x' = 0%Z ∧ refcnt x' = 1%Z ∧
    timestamp x' = ticks s ∧ ticks s' = ticks s ∧
    sleeplock x' = Some t ∧
    (∀ i, b ∈ bucket s' i ↔ i = HASH bn) ∧
    lock s' = lock s ∧ lock s' !! HASH bn = Some None ∧
    tickslock s' = tickslock s.
Proof.
  intros Hinv Hmiss Hget.
  pose proof (bget_inv _ _ _ _ _ _ Hinv Hget) as Hinv'.
  destruct (bget_miss_select _ _ _ _ _ _ Hmiss Hget)
    as (pre & j & post & s1 & x & _ & _ & Hhome & _ & _ & _ & _ & Hin & Hx
        & _ & _ & _ & _ & Htl & Hb & _ & Hlk & Htl' & Htk & _).
  assert (bufs s' !! b = Some (mkbuf 0 dv bn (Some t) 1 (ticks s) (data x)))
    as Hx'.
  { rewrite Hb. apply list_lookup_insert_eq. by eapply lookup_lt_Some. }
  eexists. split; [exact Hx'|]. simpl.
  repeat (split; [done|]).
  split; [|split; [done|split; [by rewrite Hlk|congruence]]].
  intros i. by rewrite (inv_place _ Hinv' b _ Hx' i).
Qed.

Lemma bget_miss_postcondition_witness :
  inv full_cache ∧
  cached (bufs full_cache) (bucket full_cache (HASH 15)) 1 15 = None ∧
  bget 1 1 15 full_cache = Ret 0 (final (bget 1 1 15 full_cache)) ∧
  ∃ x', bufs (final (bget 1 1 15 full_cache)) !! 0 = Some x' ∧
    dev x' = 1%Z ∧ blockno x' = 15%Z ∧ valid x' = 0%Z ∧ refcnt x' = 1%Z ∧
    timestamp x' = ticks full_cache ∧
    ticks (final (bget 1 1 15 full_cache)) = ticks full_cache ∧
    sleeplock x' = Some 1 ∧
    (∀ i, 0 ∈ bucket (final (bget 1 1 15 full_cache)) i ↔ i = HASH 15) ∧
    lock (final (bget 1 1 15 full_cache)) = lock full_cache ∧
    lock (final (bget 1 1 15 full_cache)) !! HASH 15 = Some None ∧
    tickslock (final (bget 1 1 15 full_cache)) = tickslock full_cache.
Proof.
  split; [exact full_cache_inv|].
  split; [by vm_compute|]. split; [by vm_compute|].
  apply (bget_miss_postcondition 1 1 15 full_cache 0
           (final (bget 1 1 15 full_cache)));
    [exact full_cache_inv|by vm_compute|by vm_compute].
Defined.

(** ** The hit path *)

(** C5. When the list of the home bucket holds a buffer with the requested
    [dev] and [blockno] and the bucket lock is free, [bget] takes the first
    such buffer [b] in list order (so that very buffer when it is the only
    one): it raises [refcnt] by one, leaves [dev], [blockno], [valid],
    [timestamp], the content, every other buffer, every list and every lock
    as they were, and returns [b] locked once its sleep lock is free. No
    buffer is given a new identity and none is moved. *)
Theorem bget_hit (t : tid) (dv bn : Z) (s : kstate) (j : nat) (xj : buf) :
  j ∈ bucket s (HASH bn) →
  bufs s !! j = Some xj → dev xj = dv → blockno xj = bn →
  lock s !! HASH bn = Some None →
  ∃ b x pre post,
    bucket s (HASH bn) = pre ++ b :: post ∧
    (∀ b' x', b' ∈ pre → bufs s !! b' = Some x' →
              ¬ (dev x' = dv ∧ blockno x' = bn)) ∧
    bufs s !! b = Some x ∧ dev x = dv ∧ blockno x = bn ∧
    ((∀ j' x', j' ∈ bucket s (HASH bn) → bufs s !! j' = Some x' →
               dev x' = dv → blockno x' = bn → j' = j) → b = j) ∧
    (sleeplock x = None →
     ∃ s', bget t dv bn s = Ret b s' ∧
       bufs s' = <[b := mkbuf (valid x) (dev x) (blockno x) (Some t)
                          (uint (refcnt x + 1)) (timestamp x) (data x)]> (bufs s) ∧
       ((0 ≤ refcnt x < UINT_MOD - 1)%Z → uint (refcnt x + 1) = (refcnt x + 1)%Z) ∧
       table s' = table s ∧ lock s' = lock s ∧ tickslock s' = tickslock s ∧
       ticks s' = ticks s ∧ disk s' = disk s).
Proof.
  intros Hj Hxj Hd Hb Hfree.
  destruct (cached (bufs s) (bucket s (HASH bn)) dv bn) as [b|] eqn:Hc.
  - destruct (cached_Some _ _ _ _ _ Hc)
      as (x & pre & post & Hx & Hxd & Hxb & Hl & Hpre).
    exists b, x, pre, post.
    split; [done|]. split; [done|]. split; [done|]. split; [done|].
    split; [done|]. split.
    + intros Huniq. apply (Huniq b x); try done.
      rewrite Hl. apply elem_of_app. right. by apply list_elem_of_here.
    + intros Hsl.
      destruct (bget_hit_Ret t _ _ _ _ _ Hc Hx Hfree Hsl)
        as (s' & Hget & Hbufs & Htb & Hlk & Htl & Htk & Hdk & _).
      exists s'. split; [done|]. split; [done|]. split; [|done].
      intros Hr. unfold uint. apply Z.mod_small. lia.
  - exfalso. by apply (proj1 (cached_None _ _ _ _) Hc j xj Hj Hxj).
Qed.

Lemma bget_hit_witness :
  1 ∈ bucket full_cache (HASH 1) ∧
  bufs full_cache !! 1 = Some (mkbuf 1 1 1 None 0 2 []) ∧
  lock full_cache !! HASH 1 = Some None ∧
  ∃ b x pre post,
    bucket full_cache (HASH 1) = pre ++ b :: post ∧
    (∀ b' x', b' ∈ pre → bufs full_cache !! b' = Some x' →
              ¬ (dev x' = 1%Z ∧ blockno x' = 1%Z)) ∧
    bufs full_cache !! b = Some x ∧ dev x = 1%Z ∧ blockno x = 1%Z ∧
    ((∀ j' x', j' ∈ bucket full_cache (HASH 1) → bufs full_cache !! j' = Some x' →
               dev x' = 1%Z → blockno x' = 1%Z → j' = 1) → b = 1) ∧
    (sleeplock x = None →
     ∃ s', bget 7 1 1 full_cache = Ret b s' ∧
       bufs s' = <[b := mkbuf (valid x) (dev x) (blockno x) (Some 7)
                          (uint (refcnt x + 1)) (timestamp x) (data x)]>
                   (bufs full_cache) ∧
       ((0 ≤ refcnt x < UINT_MOD - 1)%Z → uint (refcnt x + 1) = (refcnt x + 1)%Z) ∧
       table s' = table full_cache ∧ lock s' = lock full_cache ∧
       tickslock s' = tickslock full_cache ∧
       ticks s' = ticks full_cache ∧ disk s' = disk full_cache).
Proof.
  assert (1 ∈ bucket full_cache (HASH 1)) as Hin.
  { change (bucket full_cache (HASH 1)) with [1]. apply list_elem_of_here. }
  split; [exact Hin|]. split; [reflexivity|]. split; [reflexivity|].
  apply (bget_hit 7 1 1 full_cache 1 (mkbuf 1 1 1 None 0 2 []));
    [exact Hin|reflexivity|reflexivity|reflexivity|reflexivity].
Defined.

(** A pair is given to a buffer only when no buffer of the cache has it:
    under the placement invariant a miss in the home bucket is a miss in the
    whole cache. *)
Lemma bget_miss_pair_absent (dv bn : Z) (s : kstate) :
  inv s →
  cached (bufs s) (bucket s (HASH bn)) dv bn = None →
  ∀ b x, bufs s !! b = Some x → ¬ (dev x = dv ∧ blockno x = bn).
Proof.
  intros Hinv Hmiss b x Hx [Hd Hb].
  apply (proj1 (cached_None _ _ _ _) Hmiss b x); [|done|done].
  apply (inv_place _ Hinv b x Hx). by rewrite Hb.
Qed.

(** ** Running out of buffers *)

(** C7. On a miss with the home lock free, when no bucket lock is held by
    another thread and no bucket the scan locks holds a buffer with
    [refcnt == 0], [bget] ends in [panic("bget: no buffers")]. It has then
    taken the home lock and gone once through the buckets in the order
    [scan_order], which starts at the home bucket and names each of the
    [NBUCKET] buckets exactly once, locking and unlocking each foreign
    bucket it did not pass over; the cache is unchanged. *)
Theorem bget_no_buffers (t : tid) (dv bn : Z) (s : kstate) :
  cached (bufs s) (bucket s (HASH bn)) dv bn = None →
  lock s !! HASH bn = Some None →
  (∀ j, j < NBUCKET → j ≠ HASH bn →
        lock s !! j = Some None ∨ lock s !! j = Some (Some t)) →
  (∀ j, j < NBUCKET → skipped t (HASH bn) s j ∨ no_idle s j) →
  ∃ s', bget t dv bn s = Panic "bget: no buffers" s' ∧
    table s' = table s ∧ bufs s' = bufs s ∧
    trace s' = trace s ++ EvAcquire t (ShardLock (HASH bn))
                 :: flat_map (visit t (HASH bn) s) (scan_order (HASH bn)) ∧
    NoDup (scan_order (HASH bn)) ∧
    (∀ j, j ∈ scan_order (HASH bn) ↔ j < NBUCKET) ∧
    head (scan_order (HASH bn)) = Some (HASH bn).
Proof.
  intros Hmiss Hhome Hlocks Hidle.
  destruct (scan_order_once (HASH bn) (HASH_lt bn)) as (Hnd & Hall & Hhd).
  pose (s0 := set_lock <[HASH bn := Some t]>
                (log (EvAcquire t (ShardLock (HASH bn))) s)).
  destruct (scan_Panic t dv bn (HASH bn) NBUCKET (HASH bn) s0)
    as (s' & Hscan & Hsame & Hlk & Htr).
  { intros j Hj Hne. cbn [s0 lock set_lock log].
    rewrite list_lookup_insert_ne by done.
    apply Hlocks; [|done]. by apply Hall. }
  { intros j Hj. destruct (Hidle j) as [[Hne Hself]|Hno]; [by apply Hall| |by right].
    left. split; [done|]. cbn [s0 lock set_lock log].
    by rewrite list_lookup_insert_ne. }
  exists s'. split.
  { unfold bget, bind, get. rewrite (acquire_free _ _ _ Hhome).
    change (bufs (set_lock _ _)) with (bufs s).
    change (bucket (set_lock _ _) (HASH bn)) with (bucket s (HASH bn)).
    rewrite Hmiss. exact Hscan. }
  destruct Hsame as (Htb & Hbs & _).
  split; [exact Htb|]. split; [exact Hbs|]. split; [|done].
  rewrite Htr. cbn [s0 trace set_lock log]. rewrite <- app_assoc.
  change ([EvAcquire t (ShardLock (HASH bn))] ++ ?l)
    with (EvAcquire t (ShardLock (HASH bn)) :: l).
  do 2 f_equal.
  apply flat_map_ext. intros j. unfold visit, holding.
  destruct (decide (j = HASH bn)) as [->|Hne].
  - rewrite !bool_decide_eq_false_2 by (intros ?; done). reflexivity.
  - cbn [s0 lock set_lock log]. by rewrite list_lookup_insert_ne.
Qed.

Lemma no_idleb_spec (s : kstate) (i : nat) : no_idleb s i = true → no_idle s i.
Proof.
  unfold no_idleb. rewrite forallb_forall. intros Hall b x Hb Hx.
  specialize (Hall b (proj1 (list_elem_of_In _ _) Hb)). rewrite Hx in Hall.
  apply negb_true_iff, Z.eqb_neq in Hall. done.
Qed.

Lemma no_idle_check (s : kstate) :
  forallb (no_idleb s) (seq 0 NBUCKET) = true →
  ∀ j, j < NBUCKET → no_idle s j.
Proof.
  rewrite forallb_forall. intros Hall j Hj. apply no_idleb_spec, Hall.
  apply in_seq. lia.
Qed.

Lemma bget_no_buffers_witness :
  cached (bufs busy_cache) (bucket busy_cache (HASH 15)) 1 15 = None ∧
  lock busy_cache !! HASH 15 = Some None ∧
  ∃ s', bget 1 1 15 busy_cache = Panic "bget: no buffers" s' ∧
    table s' = table busy_cache ∧ bufs s' = bufs busy_cache ∧
    trace s' = trace busy_cache ++ EvAcquire 1 (ShardLock (HASH 15))
                 :: flat_map (visit 1 (HASH 15) busy_cache) (scan_order (HASH 15)) ∧
    NoDup (scan_order (HASH 15)) ∧
    (∀ j, j ∈ scan_order (HASH 15) ↔ j < NBUCKET) ∧
    head (scan_order (HASH 15)) = Some (HASH 15).
Proof.
  split; [reflexivity|]. split; [reflexivity|].
  apply (bget_no_buffers 1 1 15 busy_cache); [reflexivity|reflexivity| |].
  - intros j Hj _. left.
    change (lock busy_cache) with (replicate NBUCKET (@None tid)).
    by apply lookup_replicate_2.
  - intros j Hj. right. revert j Hj. apply no_idle_check. by vm_compute.
Defined.

(** ** [bread] and the disk *)

(** C8. Once [bget] has returned buffer [b], [bread] returns [b] too. When
    [b] has [valid == 0], [bread] makes exactly one call to the disk, a read
    into [b], and sets [valid] to 1; when [valid] is not 0 it makes no call
    and changes nothing. Either way the buffer it returns is valid. So a
    block found in the cache with [valid] set is returned as cached: same
    content, no disk transfer. *)
Theorem bread_reads_disk_iff_invalid (t : tid) (dv bn : Z) (s : kstate)
    (b : nat) (s1 : kstate) :
  bget t dv bn s = Ret b s1 →
  ∃ x s',
    bufs s1 !! b = Some x ∧ bread t dv bn s = Ret b s' ∧
    (valid x = 0%Z →
       trace s' = trace s1 ++ [EvDisk t b false] ∧
       bufs s' = <[b := with_valid 1
                     (with_data (default [] (disk s1 !! (dev x, blockno x))) x)]>
                   (bufs s1)) ∧
    (valid x ≠ 0%Z → s' = s1) ∧
    (∃ x', bufs s' !! b = Some x' ∧ valid x' ≠ 0%Z) ∧
    (∀ x0, cached (bufs s) (bucket s (HASH bn)) dv bn = Some b →
           bufs s !! b = Some x0 → valid x0 ≠ 0%Z →
           ∃ x', bufs s' !! b = Some x' ∧ data x' = data x0 ∧
                 valid x' = valid x0 ∧ disk s' = disk s ∧
                 trace s' = trace s ++ [EvAcquire t (ShardLock (HASH bn));
                                        EvRelease t (ShardLock (HASH bn));
                                        EvAcquire t (SleepLock b)]).
Proof.
  intros Hget.
  destruct (bget_Ret_locked _ _ _ _ _ _ Hget) as (x & Hx & _).
  pose proof (bread_after_bget _ _ _ _ _ _ x Hget Hx) as Hrd.
  assert (b < length (bufs s1)) as Hlt by (by eapply lookup_lt_Some).
  assert (∀ x0, cached (bufs s) (bucket s (HASH bn)) dv bn = Some b →
            bufs s !! b = Some x0 → valid x0 ≠ 0%Z →
            valid x = valid x0 ∧ data x = data x0 ∧ disk s1 = disk s ∧
            trace s1 = trace s ++ [EvAcquire t (ShardLock (HASH bn));
                                   EvRelease t (ShardLock (HASH bn));
                                   EvAcquire t (SleepLock b)]) as Hhit.
  { intros x0 Hc Hx0 Hv.
    destruct (bget_hit_inv _ _ _ _ _ _ _ Hc Hget) as (_ & Hfree & y & Hy & Hsl).
    assert (y = x0) as -> by congruence.
    destruct (bget_hit_Ret t _ _ _ _ _ Hc Hx0 Hfree Hsl)
      as (s2 & Hget2 & Hb & _ & _ & _ & _ & Hd & Htr).
    rewrite Hget in Hget2. simplify_eq.
    rewrite Hb in Hx. rewrite list_lookup_insert_eq in Hx
      by (by eapply lookup_lt_Some).
    by simplify_eq. }
  destruct (valid x =? 0)%Z eqn:Hv.
  - apply Z.eqb_eq in Hv. eexists x, _. split; [done|]. split; [exact Hrd|].
    split; [done|]. split; [done|]. split.
    + eexists. simpl. split; [by apply list_lookup_insert_eq|]. done.
    + intros x0 Hc Hx0 Hv0. destruct (Hhit x0 Hc Hx0 Hv0) as (Hvv & _). congruence.
  - apply Z.eqb_neq in Hv. exists x, s1. split; [done|]. split; [exact Hrd|].
    split; [done|]. split; [done|]. split; [by exists x|].
    intros x0 Hc Hx0 Hv0. destruct (Hhit x0 Hc Hx0 Hv0) as (Hvv & Hdd & Hdk & Htr).
    by exists x.
Qed.

Lemma bread_reads_disk_iff_invalid_witness :
  bget 7 1 1 full_cache = Ret 1 (final (bget 7 1 1 full_cache)) ∧
  ∃ x s',
    bufs (final (bget 7 1 1 full_cache)) !! 1 = Some x ∧
    bread 7 1 1 full_cache = Ret 1 s' ∧
    (valid x = 0%Z →
       trace s' = trace (final (bget 7 1 1 full_cache)) ++ [EvDisk 7 1 false] ∧
       bufs s' = <[1 := with_valid 1
                     (with_data (default [] (disk (final (bget 7 1 1 full_cache))
                                               !! (dev x, blockno x))) x)]>
                   (bufs (final (bget 7 1 1 full_cache)))) ∧
    (valid x ≠ 0%Z → s' = final (bget 7 1 1 full_cache)) ∧
    (∃ x', bufs s' !! 1 = Some x' ∧ valid x' ≠ 0%Z) ∧
    (∀ x0, cached (bufs full_cache) (bucket full_cache (HASH 1)) 1 1 = Some 1 →
           bufs full_cache !! 1 = Some x0 → valid x0 ≠ 0%Z →
           ∃ x', bufs s' !! 1 = Some x' ∧ data x' = data x0 ∧
                 valid x' = valid x0 ∧ disk s' = disk full_cache ∧
                 trace s' = trace full_cache ++ [EvAcquire 7 (ShardLock (HASH 1));
                                                 EvRelease 7 (ShardLock (HASH 1));
                                                 EvAcquire 7 (SleepLock 1)]).
Proof.
  split; [by vm_compute|].
  apply (bread_reads_disk_iff_invalid 7 1 1 full_cache 1
           (final (bget 7 1 1 full_cache))).
  by vm_compute.
Defined.

(** ** The callers' contract of [bwrite] and [brelse] *)

(** C9. For a buffer [b] of the pool: when the caller does not hold the sleep
    lock of [b], [bwrite] ends in [panic("bwrite")] and [brelse] in
    [panic("brelse")], both in the very state they were called in. When the
    caller holds it, [bwrite] returns after one call to the disk, a write of
    the content of [b] to its block; the buffers (so [valid] and [refcnt] of
    [b]), the lists and the locks are unchanged. *)
Theorem bwrite_brelse_contract (t : tid) (b : nat) (s : kstate) (x : buf) :
  bufs s !! b = Some x →
  (sleeplock x ≠ Some t →
     bwrite t b s = Panic "bwrite" s ∧ brelse t b s = Panic "brelse" s) ∧
  (sleeplock x = Some t →
     ∃ s', bwrite t b s = Ret tt s' ∧
       bufs s' = bufs s ∧ table s' = table s ∧ lock s' = lock s ∧
       trace s' = trace s ++ [EvDisk t b true] ∧
       disk s' = <[(dev x, blockno x) := data x]> (disk s)).
Proof.
  intros Hx. split.
  - intros Hsl. unfold bwrite, brelse, bind, getbuf, holdingsleep. rewrite Hx.
    by rewrite bool_decide_eq_false_2.
  - intros Hsl. rewrite (bwrite_ok _ _ _ _ Hx Hsl). by eexists.
Qed.

Lemma bwrite_brelse_contract_witness :
  bufs busy_cache !! 0 = Some (mkbuf 1 1 2 (Some 3) 1 4 []) ∧
  (sleeplock (mkbuf 1 1 2 (Some 3) 1 4 []) ≠ Some 5 →
     bwrite 5 0 busy_cache = Panic "bwrite" busy_cache ∧
     brelse 5 0 busy_cache = Panic "brelse" busy_cache) ∧
  (sleeplock (mkbuf 1 1 2 (Some 3) 1 4 []) = Some 5 →
     ∃ s', bwrite 5 0 busy_cache = Ret tt s' ∧
       bufs s' = bufs busy_cache ∧ table s' = table busy_cache ∧
       lock s' = lock busy_cache ∧
       trace s' = trace busy_cache ++ [EvDisk 5 0 true] ∧
       disk s' = <[(dev (mkbuf 1 1 2 (Some 3) 1 4 []),
                    blockno (mkbuf 1 1 2 (Some 3) 1 4 [])) :=
                     data (mkbuf 1 1 2 (Some 3) 1 4 [])]> (disk busy_cache)).
Proof.
  split; [reflexivity|].
  apply (bwrite_brelse_contract 5 0 busy_cache (mkbuf 1 1 2 (Some 3) 1 4 [])).
  reflexivity.
Defined.

(** ** Placement *)

(** C10. In every state the cache reaches ([binit], then calls that return,
    with the clock ticking) the placement invariant [inv] holds: every
    buffer is on the list of exactly the bucket [HASH(blockno)]. Right after
    [binit] that bucket is bucket 0 for every buffer. A buffer returned by
    [bget(dev, blockno)] is then on the list of bucket [blockno mod 13] and
    of no other, whatever [dev] is. *)
Theorem placement_invariant (s : kstate) :
  reachable s →
  inv s ∧
  (∀ nbuf, s = final (binit (boot nbuf)) →
           ∀ b, b < nbuf → b ∈ bucket s 0 ∧ blockno <$> bufs s !! b = Some 0%Z) ∧
  (∀ t dv bn b s', bget t dv bn s = Ret b s' →
                   ∀ i, b ∈ bucket s' i ↔ i = Z.to_nat (bn mod 13)).
Proof.
  intros Hreach. pose proof (reachable_inv s Hreach) as Hinv.
  split; [done|]. split.
  - intros nbuf -> b Hb.
    assert (Forall (λ x, blockno x = 0%Z) (bufs (boot nbuf))) as Hz.
    { unfold boot. simpl. by apply Forall_replicate. }
    destruct (binit_inv (boot nbuf) Hz) as [_ Hin]. split.
    + apply Hin. unfold boot. simpl. by rewrite length_replicate.
    + destruct (binit_Ret (boot nbuf)) as (s' & Heq & _ & _ & Hbn).
      rewrite Heq. simpl. rewrite Hbn. unfold boot. simpl.
      by rewrite lookup_replicate_2.
  - intros t dv bn b s' Hget i.
    pose proof (bget_inv _ _ _ _ _ _ Hinv Hget) as Hinv'.
    destruct (bget_Ret_locked _ _ _ _ _ _ Hget) as (x & Hx & _ & _ & Hbn).
    rewrite (inv_place _ Hinv' b x Hx i), Hbn. done.
Qed.

Lemma placement_invariant_witness :
  reachable run5 ∧
  inv run5 ∧
  (∀ nbuf, run5 = final (binit (boot nbuf)) →
           ∀ b, b < nbuf → b ∈ bucket run5 0 ∧
                           blockno <$> bufs run5 !! b = Some 0%Z) ∧
  (∀ t dv bn b s', bget t dv bn run5 = Ret b s' →
                   ∀ i, b ∈ bucket s' i ↔ i = Z.to_nat (bn mod 13)).
Proof.
  split; [exact run5_reachable|].
  apply (placement_invariant run5). exact run5_reachable.
Defined.

(** ** When the timestamp is written *)

(** C3, as the code has it. [brelse] writes the current [ticks] into the
    timestamp on every call, whatever [refcnt] becomes; [bunpin] and [bpin]
    never touch the timestamp, also when [bunpin] brings [refcnt] to 0.
    All three return when the bucket lock (and for [brelse] the sleep lock
    held by the caller, and [tickslock]) can be taken. *)
Theorem timestamp_stamping (t : tid) (b : nat) (s : kstate) (x : buf) :
  bufs s !! b = Some x →
  lock s !! HASH (blockno x) = Some None →
  (sleeplock x = Some t → tickslock s = None →
     ∃ s' x', brelse t b s = Ret tt s' ∧ bufs s' !! b = Some x' ∧
              refcnt x' = uint (refcnt x - 1) ∧ timestamp x' = ticks s) ∧
  (∃ s' x', bunpin t b s = Ret tt s' ∧ bufs s' !! b = Some x' ∧
            refcnt x' = uint (refcnt x - 1) ∧ timestamp x' = timestamp x) ∧
  (∃ s' x', bpin t b s = Ret tt s' ∧ bufs s' !! b = Some x' ∧
            refcnt x' = uint (refcnt x + 1) ∧ timestamp x' = timestamp x).
Proof.
  intros Hx Hk.
  assert (b < length (bufs s)) as Hlt by (by eapply lookup_lt_Some).
  split; [|split].
  - intros Hsl Htl.
    destruct (brelse_ok _ _ _ _ Hx Hsl Hk Htl) as (s' & Hr & Hb & _).
    exists s'. eexists. split; [done|]. rewrite Hb.
    split; [by apply list_lookup_insert_eq|done].
  - destruct (bunpin_ok t _ _ _ Hx Hk) as (s' & Hr & Hb & _).
    exists s'. eexists. split; [done|]. rewrite Hb.
    split; [by apply list_lookup_insert_eq|done].
  - destruct (bpin_ok t _ _ _ Hx Hk) as (s' & Hr & Hb & _).
    exists s'. eexists. split; [done|]. rewrite Hb.
    split; [by apply list_lookup_insert_eq|done].
Qed.

Lemma timestamp_stamping_witness :
  bufs busy_cache !! 1 = Some (mkbuf 1 1 1 (Some 4) 2 2 []) ∧
  lock busy_cache !! HASH (blockno (mkbuf 1 1 1 (Some 4) 2 2 [])) = Some None ∧
  (sleeplock (mkbuf 1 1 1 (Some 4) 2 2 []) = Some 4 → tickslock busy_cache = None →
     ∃ s' x', brelse 4 1 busy_cache = Ret tt s' ∧ bufs s' !! 1 = Some x' ∧
              refcnt x' = uint (refcnt (mkbuf 1 1 1 (Some 4) 2 2 []) - 1) ∧
              timestamp x' = ticks busy_cache) ∧
  (∃ s' x', bunpin 4 1 busy_cache = Ret tt s' ∧ bufs s' !! 1 = Some x' ∧
            refcnt x' = uint (refcnt (mkbuf 1 1 1 (Some 4) 2 2 []) - 1) ∧
            timestamp x' = timestamp (mkbuf 1 1 1 (Some 4) 2 2 [])) ∧
  (∃ s' x', bpin 4 1 busy_cache = Ret tt s' ∧ bufs s' !! 1 = Some x' ∧
            refcnt x' = uint (refcnt (mkbuf 1 1 1 (Some 4) 2 2 []) + 1) ∧
            timestamp x' = timestamp (mkbuf 1 1 1 (Some 4) 2 2 [])).
Proof.
  split; [reflexivity|]. split; [reflexivity|].
  apply (timestamp_stamping 4 1 busy_cache (mkbuf 1 1 1 (Some 4) 2 2 []));
    reflexivity.
Defined.

(** C3, as stated, fails. In [busy_cache], at tick 5, buffer 1 has
    [refcnt == 2] and timestamp 2: [brelse] by its holder leaves
    [refcnt == 1] and yet sets the timestamp to 5. Buffer 0 has
    [refcnt == 1] and timestamp 4: [bunpin] brings [refcnt] to 0 and the
    timestamp stays 4. *)
Lemma timestamp_only_at_zero_counterexample :
  ¬ (∀ (t : tid) (b : nat) (s s' : kstate) (x x' : buf),
       brelse t b s = Ret tt s' →
       bufs s !! b = Some x → bufs s' !! b = Some x' →
       refcnt x' ≠ 0%Z → timestamp x' = timestamp x) ∧
  ¬ (∀ (t : tid) (b : nat) (s s' : kstate) (x x' : buf),
       bunpin t b s = Ret tt s' →
       bufs s !! b = Some x → bufs s' !! b = Some x' →
       refcnt x' = 0%Z → timestamp x' = ticks s).
Proof.
  split; intros Hclaim.
  - specialize (Hclaim 4 1 busy_cache (final (brelse 4 1 busy_cache))
                  (mkbuf 1 1 1 (Some 4) 2 2 []) (mkbuf 1 1 1 None 1 5 [])).
    assert (5 = 2)%Z as Habs; [|done].
    apply Hclaim; by vm_compute.
  - specialize (Hclaim 9 0 busy_cache (final (bunpin 9 0 busy_cache))
                  (mkbuf 1 1 2 (Some 3) 1 4 []) (mkbuf 1 1 2 (Some 3) 0 4 [])).
    assert (4 = 5)%Z as Habs; [|done].
    apply Hclaim; by vm_compute.
Qed.

(** ** Waiting for a second bucket lock *)

(** In the scan, a foreign bucket whose lock another thread holds is not
    passed over: [holding] only recognises the caller's own locks, so the
    code goes on to the blocking [acquire] and waits there, whatever locks
    it holds itself. *)
Lemma scan_waits_on_foreign_lock (t h : tid) (dv bn : Z) (id i n : nat)
    (s : kstate) :
  i ≠ id → lock s !! i = Some (Some h) → h ≠ t →
  scan t dv bn id i (S n) s =
    Wait (ShardLock i) (log (EvAcquire t (ShardLock i)) s).
Proof.
  intros Hne Hheld Hother. cbn [scan]. unfold bind, get. cbn beta iota.
  rewrite bool_decide_eq_true_2 by done.
  unfold holding. rewrite bool_decide_eq_false_2 by congruence.
  cbn [andb]. destruct (decide (i ≠ id)); [|done].
  by rewrite (acquire_held _ h).
Qed.

(** C2 fails on the code. Thread 2 is inside [bget(1, 14)]: it has taken the
    lock of its home bucket 1 and missed. Thread 1 now calls [bget(1, 13)]:
    it takes the lock of its home bucket 0, finds nothing there, and calls
    the blocking [acquire] on bucket 1, where it waits while holding lock 0.
    Thread 2 goes on with its scan from that state, finds no idle buffer in
    buckets 1 to 12, and calls the blocking [acquire] on bucket 0, where it
    waits while holding lock 1. Each thread waits for the lock the other
    holds. *)
Theorem bget_waits_holding_home_lock :
  acquire 2 (HASH 14) busy_cache = Ret tt busy_cache_2_in_bget ∧
  cached (bufs busy_cache_2_in_bget) (bucket busy_cache_2_in_bget (HASH 14)) 1 14
    = None ∧
  ∃ sB sC,
    bget 1 1 13 busy_cache_2_in_bget = Wait (ShardLock 1) sB ∧
    lock sB !! 0 = Some (Some 1) ∧ lock sB !! 1 = Some (Some 2) ∧
    last (trace sB) = Some (EvAcquire 1 (ShardLock 1)) ∧
    scan 2 1 14 (HASH 14) (HASH 14) NBUCKET sB = Wait (ShardLock 0) sC ∧
    lock sC !! 0 = Some (Some 1) ∧ lock sC !! 1 = Some (Some 2) ∧
    last (trace sC) = Some (EvAcquire 2 (ShardLock 0)).
Proof.
  split; [by vm_compute|]. split; [by vm_compute|].
  exists (final (bget 1 1 13 busy_cache_2_in_bget)).
  exists (final (scan 2 1 14 (HASH 14) (HASH 14) NBUCKET
                   (final (bget 1 1 13 busy_cache_2_in_bget)))).
  do 7 (split; [by vm_compute|]). by vm_compute.
Qed.

(** * Further properties *)

(** ** The lookup under changes of the pool and of the lists *)

Lemma cached_change (bs bs' : list buf) (l : list nat) (dv bn : Z) (c : nat) :
  cached bs l dv bn = Some c →
  (∀ c', c' ∈ l → matches bs' dv bn c' → matches bs dv bn c') →
  matches bs' dv bn c →
  cached bs' l dv bn = Some c.
Proof.
  intros Hc Hnew Hstill. induction l as [|c0 l IH]; simpl in *; [done|].
  assert (∀ c', c' ∈ l → matches bs' dv bn c' → matches bs dv bn c') as Hnew'.
  { intros c' Hc'. apply Hnew. by apply list_elem_of_further. }
  assert (cached bs' l dv bn = Some c ∨ c0 = c) as Hrest.
  { destruct (bs !! c0) as [x|] eqn:Hx; [|left; by apply IH].
    destruct ((dev x =? dv)%Z && (blockno x =? bn)%Z)%bool; [right; congruence|].
    left. by apply IH. }
  destruct (bs' !! c0) as [y|] eqn:Hy.
  - destruct ((dev y =? dv)%Z && (blockno y =? bn)%Z)%bool eqn:Hm.
    + apply andb_true_iff in Hm as [Hd Hb]. apply Z.eqb_eq in Hd, Hb.
      destruct (Hnew c0) as (x & Hx & Hxd & Hxb);
        [apply list_elem_of_here|by exists y|].
      rewrite Hx, Hxd, Hxb, !Z.eqb_refl in Hc. simpl in Hc. congruence.
    + destruct Hrest as [Hrest| ->]; [done|].
      destruct Hstill as (y' & Hy' & Hd & Hb).
      assert (y' = y) as -> by congruence.
      by rewrite Hd, Hb, !Z.eqb_refl in Hm.
  - destruct Hrest as [Hrest| ->]; [done|].
    destruct Hstill as (y' & Hy' & _). congruence.
Qed.

Lemma cached_unlink (bs : list buf) (l : list nat) (dv bn : Z) (b c : nat) :
  cached bs l dv bn = Some c → c ≠ b →
  cached bs (unlink b l) dv bn = Some c.
Proof.
  intros Hc Hne. induction l as [|c0 l IH]; simpl in *; [done|].
  unfold unlink in *. rewrite filter_cons.
  destruct (decide (c0 ≠ b)) as [Hc0|Hc0]; simpl.
  - destruct (bs !! c0) as [x|]; [|by apply IH].
    destruct ((dev x =? dv)%Z && (blockno x =? bn)%Z)%bool; [done|by apply IH].
  - assert (c0 = b) as -> by (destruct (decide (c0 = b)); [done|by destruct Hc0]).
    destruct (bs !! b) as [x|]; [|by apply IH].
    destruct ((dev x =? dv)%Z && (blockno x =? bn)%Z)%bool; [congruence|by apply IH].
Qed.

Lemma cached_only (bs : list buf) (l : list nat) (dv bn : Z) (b : nat) :
  b ∈ l → matches bs dv bn b →
  (∀ c, c ∈ l → c ≠ b → ¬ matches bs dv bn c) →
  cached bs l dv bn = Some b.
Proof.
  intros Hin (x & Hx & Hd & Hb) Hothers.
  induction l as [|c0 l IH]; simpl; [by apply elem_of_nil in Hin|].
  destruct (decide (c0 = b)) as [->|Hne].
  - by rewrite Hx, Hd, Hb, !Z.eqb_refl.
  - apply elem_of_cons in Hin as [->|Hin]; [done|].
    assert (cached bs l dv bn = Some b) as Hrest.
    { apply IH; [done|]. intros c Hc. apply Hothers. by apply list_elem_of_further. }
    destruct (bs !! c0) as [y|] eqn:Hy; [|done].
    destruct ((dev y =? dv)%Z && (blockno y =? bn)%Z)%bool eqn:Hm; [|done].
    apply andb_true_iff in Hm as [Hyd Hyb]. apply Z.eqb_eq in Hyd, Hyb.
    destruct (Hothers c0); [apply list_elem_of_here|done|by exists y].
Qed.

Lemma matches_insert_ne (bs : list buf) (b c : nat) (y : buf) (dv bn : Z) :
  c ≠ b → matches (<[b := y]> bs) dv bn c ↔ matches bs dv bn c.
Proof. intros Hne. unfold matches. by rewrite list_lookup_insert_ne. Qed.

(** The lookup for a pair other than the one just given to [b]. *)
Lemma cached_insert_other (bs : list buf) (l : list nat) (dv bn : Z) (b c : nat)
    (y : buf) :
  cached bs l dv bn = Some c → c ≠ b →
  ¬ (dev y = dv ∧ blockno y = bn) →
  cached (<[b := y]> bs) l dv bn = Some c.
Proof.
  intros Hc Hne Hy. eapply cached_change; [exact Hc| |].
  - intros c' _ Hm. destruct (decide (c' = b)) as [->|Hc'].
    + destruct Hm as (y' & Hy' & Hd & Hb).
      apply list_lookup_insert_Some in Hy' as [(_ & -> & _)|[? _]]; [|done].
      by destruct Hy.
    + by apply (matches_insert_ne bs b c' y).
  - apply matches_insert_ne; [done|].
    destruct (cached_Some _ _ _ _ _ Hc) as (x & _ & _ & Hx & Hd & Hb & _).
    by exists x.
Qed.

(** The lookup when [b] is rewritten without touching [dev] and [blockno]. *)
Lemma cached_insert_same (bs : list buf) (l : list nat) (dv bn : Z) (b c : nat)
    (x y : buf) :
  cached bs l dv bn = Some c →
  bs !! b = Some x → dev y = dev x → blockno y = blockno x →
  cached (<[b := y]> bs) l dv bn = Some c.
Proof.
  intros Hc Hx Hd Hb.
  assert (b < length bs) as Hlt by (by eapply lookup_lt_Some).
  assert (∀ c', matches (<[b := y]> bs) dv bn c' ↔ matches bs dv bn c') as Hsame.
  { intros c'. destruct (decide (c' = b)) as [->|Hc']; [|by apply matches_insert_ne].
    unfold matches. rewrite list_lookup_insert_eq by done. split.
    - intros (y' & [= <-] & Hyd & Hyb). exists x. split; [done|]. split; congruence.
    - intros (x' & Hx' & Hxd & Hxb). assert (x' = x) as -> by congruence.
      exists y. split; [done|]. split; congruence. }
  eapply cached_change; [exact Hc| |].
  - intros c' _. apply Hsame.
  - apply Hsame. destruct (cached_Some _ _ _ _ _ Hc) as (x' & _ & _ & Hx' & ? & ? & _).
    by exists x'.
Qed.

(** ** What [bget] returns is what the lookup finds *)

Lemma bget_first_match (t : tid) (dv bn : Z) (s : kstate) (b : nat) (s' : kstate) :
  inv s → bget t dv bn s = Ret b s' →
  cached (bufs s') (bucket s' (HASH bn)) dv bn = Some b.
Proof.
  intros Hinv Hget.
  destruct (cached (bufs s) (bucket s (HASH bn)) dv bn) as [c|] eqn:Hc.
  - destruct (bget_hit_inv _ _ _ _ _ _ _ Hc Hget) as (-> & Hfree & x & Hx & Hsl).
    destruct (bget_hit_Ret t _ _ _ _ _ Hc Hx Hfree Hsl)
      as (s2 & Hget2 & Hb & Htb & _).
    rewrite Hget in Hget2. simplify_eq.
    unfold bucket. rewrite Htb, Hb. by apply (cached_insert_same _ _ _ _ _ _ x).
  - destruct (bget_miss_select _ _ _ _ _ _ Hc Hget)
      as (pre & j & post & s1 & x & _ & _ & _ & _ & _ & _ & _ & Hin & Hx & _ & _
          & _ & _ & _ & Hb & Htb & _).
    assert (b < length (bufs s)) as Hlt by (by eapply lookup_lt_Some).
    assert (matches (bufs s') dv bn b) as Hm.
    { eexists. rewrite Hb. split; [by apply list_lookup_insert_eq|done]. }
    destruct (decide (j ≠ HASH bn)) as [Hne|Heq].
    + unfold bucket. rewrite Htb, bucket_relocate; [|by rewrite (inv_table _ Hinv);
        apply HASH_lt|done].
      destruct (decide (HASH bn = HASH bn)); [|done]. simpl.
      destruct Hm as (y & -> & <- & <-). by rewrite !Z.eqb_refl.
    + assert (j = HASH bn) as -> by (destruct (decide (j = HASH bn)); [done|by destruct Heq]).
      unfold bucket. rewrite Htb. apply cached_only; [done|done|].
      intros c Hcin Hcb Hcm. rewrite Hb in Hcm.
      apply matches_insert_ne in Hcm; [|done].
      destruct Hcm as (y & Hy & Hd & Hbn).
      by apply (proj1 (cached_None _ _ _ _) Hc c y).
Qed.

(** ** [binit] as a whole *)

Lemma binit_links_bufs (l : list nat) (acc : kstate) :
  (∀ k, bufs (foldl link acc l) !! k =
        if decide (k ∈ l) then with_sleeplock None <$> bufs acc !! k
        else bufs acc !! k) ∧
  ticks (foldl link acc l) = ticks acc ∧
  tickslock (foldl link acc l) = tickslock acc ∧
  disk (foldl link acc l) = disk acc ∧
  trace (foldl link acc l) = trace acc.
Proof.
  revert acc. induction l as [|b l IH]; intros acc; simpl.
  - split; [|done]. intros k. destruct (decide (k ∈ [])) as [Hk|_]; [|done].
    by apply elem_of_nil in Hk.
  - destruct (IH (link acc b)) as (Hbs & Htk & Htl & Hd & Htr).
    split; [|done]. intros k. rewrite Hbs. simpl.
    rewrite list_lookup_alter.
    destruct (decide (b = k)) as [->|Hne].
    + rewrite (decide_True (P := k ∈ k :: l)) by apply list_elem_of_here.
      destruct (decide (k ∈ l)); destruct (bufs acc !! k); done.
    + destruct (decide (k ∈ l)) as [Hin|Hout].
      * by rewrite (decide_True (P := k ∈ b :: l)) by (by apply list_elem_of_further).
      * rewrite (decide_False (P := k ∈ b :: l)); [done|].
        intros [->|?]%elem_of_cons; done.
Qed.

Lemma binit_post (s : kstate) :
  ∃ s', binit s = Ret tt s' ∧
    table s' = <[0 := reverse (seq 0 (length (bufs s)))]> (replicate NBUCKET []) ∧
    lock s' = replicate NBUCKET None ∧
    (∀ k, bufs s' !! k =
          if decide (k ∈ seq 0 (length (bufs s)))
          then with_sleeplock None <$> bufs s !! k else bufs s !! k) ∧
    ticks s' = ticks s ∧ tickslock s' = tickslock s ∧ disk s' = disk s ∧
    trace s' = trace s.
Proof.
  unfold binit, bind, modify, get. cbn beta iota.
  eexists. split; [reflexivity|].
  match goal with |- context [foldl link ?acc ?l] =>
    destruct (binit_links l acc) as (Htb & Hlk & _);
    destruct (binit_links_bufs l acc) as (Hbs & Htk & Htl & Hd & Htr)
  end.
  rewrite Htb, Hlk, Htk, Htl, Hd, Htr.
  cbn [table lock bufs ticks tickslock disk trace set_table set_lock] in *.
  split; [|done]. simpl. by rewrite app_nil_r.
Qed.

(** X1. [binit] always returns. Afterwards the list of bucket 0 holds every
    buffer of the pool, the last one first, every other list is empty, every
    bucket lock and every sleep lock is free, and nothing else is changed:
    the buffers keep their other fields, the clock and the disk are as they
    were and no collaborator was called. *)
Theorem binit_establishes (s : kstate) :
  ∃ s', binit s = Ret tt s' ∧
    bucket s' 0 = reverse (seq 0 (length (bufs s))) ∧
    (∀ i, i ≠ 0 → bucket s' i = []) ∧
    length (table s') = NBUCKET ∧
    lock s' = replicate NBUCKET None ∧
    bufs s' = with_sleeplock None <$> bufs s ∧
    ticks s' = ticks s ∧ tickslock s' = tickslock s ∧ disk s' = disk s ∧
    trace s' = trace s.
Proof.
  destruct (binit_post s) as (s' & Hret & Htb & Hlk & Hbs & Hrest).
  exists s'. split; [done|].
  split; [unfold bucket; by rewrite Htb|]. split.
  { intros i Hi. unfold bucket. rewrite Htb, list_lookup_insert_ne by done.
    destruct (replicate NBUCKET [] !! i) as [l|] eqn:Hl; [|done].
    by apply lookup_replicate in Hl as [-> _]. }
  split; [by rewrite Htb, length_insert, length_replicate|].
  split; [done|]. split; [|done].
  apply list_eq. intros k. rewrite Hbs, list_lookup_fmap.
  destruct (decide (k ∈ seq 0 (length (bufs s)))) as [_|Hout]; [done|].
  rewrite lookup_ge_None_2; [done|].
  apply Nat.le_ngt. intros Hlt. apply Hout. apply elem_of_seq. lia.
Qed.

(** ** Valid buffers and the lookup *)

Lemma valid_first_insert (s s' : kstate) (b : nat) (x y : buf) :
  valid_first s →
  bufs s !! b = Some x → dev y = dev x → blockno y = blockno x →
  (valid y ≠ 0%Z →
   cached (bufs s) (bucket s (HASH (blockno x))) (dev x) (blockno x) = Some b) →
  table s' = table s → bufs s' = <[b := y]> (bufs s) →
  valid_first s'.
Proof.
  intros HV Hx Hd Hb Hfirst Htb Hbs c z Hz Hv.
  unfold bucket. rewrite Htb, Hbs. rewrite Hbs in Hz.
  destruct (decide (c = b)) as [->|Hne].
  - rewrite list_lookup_insert_eq in Hz by (by eapply lookup_lt_Some).
    injection Hz as <-. rewrite Hd, Hb.
    apply (cached_insert_same _ _ _ _ _ _ x); [|done|done|done].
    by apply Hfirst.
  - rewrite list_lookup_insert_ne in Hz by done.
    apply (cached_insert_same _ _ _ _ _ _ x); [|done|done|done].
    by apply HV.
Qed.

(** A miss leaves the lookup of every pair alone whose buffer it does not
    recycle. *)
Lemma bget_miss_keeps_lookup (t : tid) (dv bn : Z) (s : kstate) (b : nat)
    (s' : kstate) (dv' bn' : Z) (c : nat) :
  inv s →
  cached (bufs s) (bucket s (HASH bn)) dv bn = None →
  bget t dv bn s = Ret b s' →
  cached (bufs s) (bucket s (HASH bn')) dv' bn' = Some c → c ≠ b →
  cached (bufs s') (bucket s' (HASH bn')) dv' bn' = Some c.
Proof.
  intros Hinv Hc Hget Hfirst Hcb.
  destruct (bget_miss_select _ _ _ _ _ _ Hc Hget)
    as (pre & j & post & s1 & x & _ & _ & _ & _ & _ & _ & _ & Hin & Hx & _ & _
        & _ & _ & _ & Hb & Htb & _).
  assert (b < length (bufs s)) as Hlt by (by eapply lookup_lt_Some).
  assert (¬ (dv = dv' ∧ bn = bn')) as Hpair.
  { intros [-> ->]. congruence. }
  assert (∀ l, cached (bufs s) l dv' bn' = Some c →
               cached (bufs s') l dv' bn' = Some c) as Hkeep.
  { intros l Hl. rewrite Hb. by apply cached_insert_other. }
  destruct (decide (j ≠ HASH bn)) as [Hne|Heq].
  - unfold bucket. rewrite Htb, bucket_relocate;
      [|by rewrite (inv_table _ Hinv); apply HASH_lt|done].
    destruct (decide (HASH bn' = HASH bn)) as [Hk|Hk].
    + simpl. rewrite Hb at 1. rewrite list_lookup_insert_eq by done. simpl.
      assert (((dv =? dv')%Z && (bn =? bn')%Z)%bool = false) as ->.
      { apply andb_false_iff.
        destruct (decide (dv = dv')) as [Hd|Hd]; [right|left];
          apply Z.eqb_neq; [|done]. intros Hbn. by apply Hpair. }
      apply Hkeep. unfold bucket in Hfirst. by rewrite Hk in Hfirst.
    + destruct (decide (HASH bn' = j)) as [Hkj|Hkj].
      * apply Hkeep. apply cached_unlink; [|done].
        unfold bucket in Hfirst. by rewrite Hkj in Hfirst.
      * by apply Hkeep.
  - unfold bucket. rewrite Htb. by apply Hkeep.
Qed.

Lemma bget_valid_first (t : tid) (dv bn : Z) (s : kstate) (b : nat) (s' : kstate) :
  inv s → valid_first s → bget t dv bn s = Ret b s' → valid_first s'.
Proof.
  intros Hinv HV Hget.
  destruct (cached (bufs s) (bucket s (HASH bn)) dv bn) as [c|] eqn:Hc.
  - destruct (bget_hit_inv _ _ _ _ _ _ _ Hc Hget) as (-> & Hfree & x & Hx & Hsl).
    destruct (bget_hit_Ret t _ _ _ _ _ Hc Hx Hfree Hsl)
      as (s2 & Hget2 & Hb & Htb & _).
    rewrite Hget in Hget2. simplify_eq.
    refine (valid_first_insert s _ c x _ HV Hx _ _ _ Htb Hb); [done|done|].
    simpl. intros Hv. by apply HV.
  - destruct (bget_miss_select _ _ _ _ _ _ Hc Hget)
      as (pre & j & post & s1 & x & _ & _ & _ & _ & _ & _ & _ & Hin & Hx & _ & _
          & _ & _ & _ & Hb & _).
    assert (b < length (bufs s)) as Hlt by (by eapply lookup_lt_Some).
    intros c z Hz Hv. rewrite Hb in Hz.
    destruct (decide (c = b)) as [->|Hcb].
    { rewrite list_lookup_insert_eq in Hz by done. by injection Hz as <-. }
    rewrite list_lookup_insert_ne in Hz by done.
    eapply bget_miss_keeps_lookup; [exact Hinv|exact Hc|exact Hget| |exact Hcb].
    by apply HV.
Qed.

Lemma exec_valid_first (t : tid) (c : call) (s s' : kstate) (u : unit) :
  inv s → valid_first s → exec t c s = Ret u s' → valid_first s'.
Proof.
  intros Hinv HV. destruct c as [dv bn|b|b|b|b]; simpl.
  - unfold bind at 1. destruct (bread t dv bn s) as [b s2| | |] eqn:Hrd; try done.
    intros [= <-].
    assert (∃ s1, bget t dv bn s = Ret b s1) as [s1 Hget].
    { unfold bread, bind in Hrd.
      destruct (bget t dv bn s) as [b1 s1| | |] eqn:Hget; try done.
      destruct (getbuf b1 s1) as [x1 s3| | |]; try done.
      destruct (valid x1 =? 0)%Z.
      - destruct (virtio_disk_rw t b1 false s3) as [? ?| | |]; try done.
        unfold modbuf, modify, ret in Hrd. injection Hrd as <- _. by exists s1.
      - unfold ret in Hrd. injection Hrd as <- _. by exists s1. }
    pose proof (bget_valid_first _ _ _ _ _ _ Hinv HV Hget) as HV1.
    pose proof (bget_first_match _ _ _ _ _ _ Hinv Hget) as Hfirst.
    destruct (bget_Ret_locked _ _ _ _ _ _ Hget) as (x & Hx & _ & Hd & Hb).
    rewrite (bread_after_bget _ _ _ _ _ _ x Hget Hx) in Hrd.
    destruct (valid x =? 0)%Z; simplify_eq; [|done].
    match goal with |- valid_first (set_bufs <[b := ?y]> _) =>
      apply (valid_first_insert s1 _ b x y HV1 Hx)
    end; [done|done| |done|done].
    intros _. exact Hfirst.
  - intros Hw. destruct (bwrite_Ret _ _ _ _ _ Hw) as (x & Hx & Hsl).
    rewrite (bwrite_ok _ _ _ _ Hx Hsl) in Hw. simplify_eq.
    intros c z Hz Hv. by apply HV.
  - intros Hr. destruct (brelse_Ret _ _ _ _ _ Hr) as (x & Hx & Hsl & Hk & Htl).
    destruct (brelse_ok _ _ _ _ Hx Hsl Hk Htl) as (s2 & Hr2 & Hb & Htb & _).
    rewrite Hr in Hr2. simplify_eq.
    refine (valid_first_insert s _ b x _ HV Hx _ _ _ Htb Hb); [done|done|].
    simpl. intros Hv. by apply HV.
  - intros Hr. destruct (bpin_Ret _ _ _ _ _ Hr) as (x & Hx & Hk).
    destruct (bpin_ok t _ _ _ Hx Hk) as (s2 & Hr2 & Hb & Htb & _).
    rewrite Hr in Hr2. simplify_eq.
    refine (valid_first_insert s _ b x _ HV Hx _ _ _ Htb Hb); [done|done|].
    simpl. intros Hv. by apply HV.
  - intros Hr. destruct (bunpin_Ret _ _ _ _ _ Hr) as (x & Hx & Hk).
    destruct (bunpin_ok t _ _ _ Hx Hk) as (s2 & Hr2 & Hb & Htb & _).
    rewrite Hr in Hr2. simplify_eq.
    refine (valid_first_insert s _ b x _ HV Hx _ _ _ Htb Hb); [done|done|].
    simpl. intros Hv. by apply HV.
Qed.

Lemma reachable_valid_first (s : kstate) : reachable s → valid_first s.
Proof.
  induction 1 as [nbuf|t c s s' Hreach IH Hex|s z _ IH].
  - destruct (binit_post (boot nbuf)) as (s' & Hret & _ & _ & Hbs & _).
    rewrite Hret. simpl. intros b x Hx Hv. rewrite Hbs in Hx.
    change (bufs (boot nbuf)) with (replicate nbuf zero_buf) in Hx.
    destruct (replicate nbuf zero_buf !! b) as [y|] eqn:Hy;
      [|by destruct (decide _)].
    apply lookup_replicate in Hy as [-> _].
    destruct (decide _); by injection Hx as <-.
  - eapply exec_valid_first; [|exact IH|exact Hex]. by apply reachable_inv.
  - intros b x Hx Hv. by apply IH.
Qed.

(** ** More on the paths through [bget] and [bread] *)

Lemma bget_hit_Wait (t h : tid) (dv bn : Z) (s : kstate) (b : nat) (x : buf) :
  cached (bufs s) (bucket s (HASH bn)) dv bn = Some b →
  bufs s !! b = Some x →
  lock s !! HASH bn = Some None →
  sleeplock x = Some h →
  ∃ s', bget t dv bn s = Wait (SleepLock b) s' ∧
    bufs s' = <[b := with_refcnt (uint (refcnt x + 1)) x]> (bufs s) ∧
    table s' = table s ∧ lock s' = lock s ∧ tickslock s' = tickslock s ∧
    ticks s' = ticks s ∧ disk s' = disk s ∧
    trace s' = trace s ++ [EvAcquire t (ShardLock (HASH bn));
                           EvRelease t (ShardLock (HASH bn));
                           EvAcquire t (SleepLock b)].
Proof.
  intros Hhit Hx Hfree Hsl. unfold bget, bind, get.
  rewrite (acquire_free _ _ _ Hfree).
  change (bufs (set_lock _ _)) with (bufs s).
  change (bucket (set_lock _ _) (HASH bn)) with (bucket s (HASH bn)).
  rewrite Hhit. unfold modbuf, modify, release, acquiresleep, bind, getbuf, ret.
  simpl. rewrite list_lookup_alter_eq, Hx. simpl. rewrite Hsl.
  eexists. split; [reflexivity|]. simpl.
  split; [by rewrite (alter_lookup_insert _ _ _ x Hx)|].
  split; [done|]. split; [by apply insert_restore|].
  split; [done|]. split; [done|]. split; [done|].
  by rewrite <- !app_assoc.
Qed.

Lemma bget_Ret_locks (t : tid) (dv bn : Z) (s : kstate) (b : nat) (s' : kstate) :
  bget t dv bn s = Ret b s' →
  lock s' = lock s ∧ tickslock s' = tickslock s ∧ lock s !! HASH bn = Some None.
Proof.
  intros Hget.
  destruct (cached (bufs s) (bucket s (HASH bn)) dv bn) as [c|] eqn:Hc.
  - destruct (bget_hit_inv _ _ _ _ _ _ _ Hc Hget) as (-> & Hfree & x & Hx & Hsl).
    destruct (bget_hit_Ret t _ _ _ _ _ Hc Hx Hfree Hsl)
      as (s2 & Hget2 & _ & _ & Hlk & Htl & _).
    rewrite Hget in Hget2. by simplify_eq.
  - destruct (bget_miss_select _ _ _ _ _ _ Hc Hget)
      as (_ & _ & _ & _ & _ & _ & _ & Hfree & _ & _ & _ & _ & _ & _ & _ & _ & _
          & _ & Htl & _ & _ & Hlk & Htl' & _).
    split; [done|]. split; [congruence|done].
Qed.

Lemma bread_Ret (t : tid) (dv bn : Z) (s : kstate) (b : nat) (s' : kstate) :
  bread t dv bn s = Ret b s' →
  ∃ s0 x, bget t dv bn s = Ret b s0 ∧ bufs s0 !! b = Some x ∧
    s' = if (valid x =? 0)%Z
         then set_bufs
                <[b := with_valid 1
                         (with_data (default [] (disk s0 !! (dev x, blockno x))) x)]>
                (log (EvDisk t b false) s0)
         else s0.
Proof.
  intros Hrd.
  assert (∃ s0, bget t dv bn s = Ret b s0) as [s0 Hget].
  { unfold bread, bind in Hrd.
    destruct (bget t dv bn s) as [b1 s1| | |] eqn:Hget; try done.
    destruct (getbuf b1 s1) as [x1 s3| | |]; try done.
    destruct (valid x1 =? 0)%Z.
    - destruct (virtio_disk_rw t b1 false s3) as [? ?| | |]; try done.
      unfold modbuf, modify, ret in Hrd. injection Hrd as <- _. by exists s1.
    - unfold ret in Hrd. injection Hrd as <- _. by exists s1. }
  destruct (bget_Ret_locked _ _ _ _ _ _ Hget) as (x & Hx & _).
  rewrite (bread_after_bget _ _ _ _ _ _ x Hget Hx) in Hrd.
  exists s0, x. split; [done|]. split; [done|].
  destruct (valid x =? 0)%Z; by simplify_eq.
Qed.

Lemma exec_locks (t : tid) (c : call) (s s' : kstate) (u : unit) :
  exec t c s = Ret u s' → lock s' = lock s ∧ tickslock s' = tickslock s.
Proof.
  destruct c as [dv bn|b|b|b|b]; simpl.
  - unfold bind at 1. destruct (bread t dv bn s) as [b s2| | |] eqn:Hrd; try done.
    unfold ret. intros Hret.
    destruct (bread_Ret _ _ _ _ _ _ Hrd) as (s0 & x & Hget & _ & Heq).
    destruct (bget_Ret_locks _ _ _ _ _ _ Hget) as (Hlk & Htl & _).
    simplify_eq. destruct (valid x =? 0)%Z; simpl; by split.
  - intros Hw. destruct (bwrite_Ret _ _ _ _ _ Hw) as (x & Hx & Hsl).
    rewrite (bwrite_ok _ _ _ _ Hx Hsl) in Hw. by simplify_eq.
  - intros Hr. destruct (brelse_Ret _ _ _ _ _ Hr) as (x & Hx & Hsl & Hk & Htl).
    destruct (brelse_ok _ _ _ _ Hx Hsl Hk Htl) as (s2 & Hr2 & _ & _ & Hlk & Htl' & _).
    rewrite Hr in Hr2. simplify_eq. split; [done|congruence].
  - intros Hr. destruct (bpin_Ret _ _ _ _ _ Hr) as (x & Hx & Hk).
    destruct (bpin_ok t _ _ _ Hx Hk) as (s2 & Hr2 & _ & _ & Hlk & Htl & _).
    rewrite Hr in Hr2. by simplify_eq.
  - intros Hr. destruct (bunpin_Ret _ _ _ _ _ Hr) as (x & Hx & Hk).
    destruct (bunpin_ok t _ _ _ Hx Hk) as (s2 & Hr2 & _ & _ & Hlk & Htl & _).
    rewrite Hr in Hr2. by simplify_eq.
Qed.

Lemma reachable_unlocked (s : kstate) :
  reachable s → lock s = replicate NBUCKET None ∧ tickslock s = None.
Proof.
  induction 1 as [nbuf|t c s s' _ IH Hex|s z _ IH].
  - destruct (binit_post (boot nbuf)) as (s' & -> & _ & Hlk & _ & _ & Htl & _).
    simpl. by rewrite Hlk, Htl.
  - destruct (exec_locks _ _ _ _ _ Hex) as [-> ->]. done.
  - done.
Qed.

Lemma pinned_cache_inv : inv pinned_cache.
Proof.
  apply (exec_inv 9 (Cbpin 0) full_cache _ tt); [apply full_cache_inv|by vm_compute].
Qed.

Lemma uint_small (z : Z) : (0 ≤ z < UINT_MOD)%Z → uint z = z.
Proof. intros Hz. unfold uint. by apply Z.mod_small. Qed.

(** ** The place of the candidate in its list *)

Lemma lru_pos_step (bs : list buf) (seen l : list nat) (acc : option nat) :
  lru_pos bs seen acc → lru_pos bs (seen ++ l) (lru bs l acc).
Proof.
  revert seen acc. induction l as [|tmp l IH]; intros seen acc Hacc; simpl.
  - by rewrite app_nil_r.
  - replace (seen ++ tmp :: l) with ((seen ++ [tmp]) ++ l)
      by (by rewrite <- app_assoc).
    apply IH. clear IH.
    assert (∀ a, lru_pos bs seen (Some a) → ¬ idle bs tmp →
                 lru_pos bs (seen ++ [tmp]) (Some a)) as Hbusy_some.
    { intros a (pre & post & -> & Hai & Hpre & Hpost) Hbusy.
      exists pre, (post ++ [tmp]). split; [by rewrite <- app_assoc|].
      split; [done|]. split; [done|].
      intros b Hb Hbi. apply elem_of_app in Hb as [Hb|Hb]; [by apply Hpost|].
      apply list_elem_of_singleton in Hb as ->. done. }
    assert (lru_pos bs seen None → ¬ idle bs tmp →
            lru_pos bs (seen ++ [tmp]) None) as Hbusy_none.
    { intros Hno Hbusy b Hb. apply elem_of_app in Hb as [Hb|Hb]; [by apply Hno|].
      apply list_elem_of_singleton in Hb as ->. done. }
    destruct (bs !! tmp) as [x|] eqn:Hx.
    + destruct (refcnt x =? 0)%Z eqn:Hr; simpl.
      * apply Z.eqb_eq in Hr.
        assert (idle bs tmp) as Hidle by (by exists x).
        assert (stamp_of bs tmp = timestamp x) as Hts
          by (unfold stamp_of; by rewrite Hx).
        destruct acc as [a|]; simpl.
        -- pose proof Hacc as (pre & post & -> & Hai & Hpre & Hpost).
           destruct Hai as (y & Hy & Hyr). rewrite Hy.
           assert (stamp_of bs a = timestamp y) as Hta
             by (unfold stamp_of; by rewrite Hy).
           destruct (timestamp x <? timestamp y)%Z eqn:Hlt.
           ++ apply Z.ltb_lt in Hlt.
              exists (pre ++ a :: post), []. split; [done|]. split; [done|].
              split; [|intros b Hb; by apply elem_of_nil in Hb].
              intros b Hb Hbi. rewrite Hts.
              apply elem_of_app in Hb as [Hb|Hb].
              ** specialize (Hpre b Hb Hbi). lia.
              ** apply elem_of_cons in Hb as [->|Hb]; [lia|].
                 specialize (Hpost b Hb Hbi). lia.
           ++ apply Z.ltb_ge in Hlt.
              exists pre, (post ++ [tmp]). split; [by rewrite <- app_assoc|].
              split; [by exists y|]. split; [done|].
              intros b Hb Hbi. apply elem_of_app in Hb as [Hb|Hb]; [by apply Hpost|].
              apply list_elem_of_singleton in Hb as ->. lia.
        -- exists seen, []. split; [done|]. split; [done|].
           split; [|intros b Hb; by apply elem_of_nil in Hb].
           intros b Hb Hbi. by destruct (Hacc b Hb).
      * apply Z.eqb_neq in Hr.
        assert (¬ idle bs tmp) as Hbusy.
        { intros (y & Hy & Hyr). congruence. }
        destruct acc as [a|]; [by apply Hbusy_some|by apply Hbusy_none].
    + assert (¬ idle bs tmp) as Hbusy.
      { intros (y & Hy & Hyr). congruence. }
      destruct acc as [a|]; [by apply Hbusy_some|by apply Hbusy_none].
Qed.

(** ** One block, one buffer *)

(** X2. Once [bget(dev, blockno)] has returned buffer [b], the lookup of
    the home bucket finds [b] for that pair, and a second [bget] for the
    same pair, by whatever thread, while the first caller still holds [b],
    takes no other buffer: it counts itself in [refcnt] of [b], lets go of
    the bucket lock and sleeps on the sleep lock of [b]. *)
Theorem bget_same_block_same_buffer (t t' : tid) (dv bn : Z) (s : kstate)
    (b : nat) (s1 : kstate) :
  inv s →
  bget t dv bn s = Ret b s1 →
  cached (bufs s1) (bucket s1 (HASH bn)) dv bn = Some b ∧
  ∃ x1 s2,
    bufs s1 !! b = Some x1 ∧ sleeplock x1 = Some t ∧
    bget t' dv bn s1 = Wait (SleepLock b) s2 ∧
    bufs s2 = <[b := with_refcnt (uint (refcnt x1 + 1)) x1]> (bufs s1) ∧
    table s2 = table s1 ∧ lock s2 = lock s1.
Proof.
  intros Hinv Hget.
  pose proof (bget_first_match _ _ _ _ _ _ Hinv Hget) as Hfirst.
  destruct (bget_Ret_locked _ _ _ _ _ _ Hget) as (x1 & Hx1 & Hsl & _).
  destruct (bget_Ret_locks _ _ _ _ _ _ Hget) as (Hlk & _ & Hfree).
  rewrite <- Hlk in Hfree.
  destruct (bget_hit_Wait t' t _ _ _ _ _ Hfirst Hx1 Hfree Hsl)
    as (s2 & Hw & Hb & Htb & Hlk2 & _).
  split; [done|]. by exists x1, s2.
Qed.

Lemma bget_same_block_same_buffer_witness :
  inv full_cache ∧
  bget 1 1 15 full_cache = Ret 0 (final (bget 1 1 15 full_cache)) ∧
  cached (bufs (final (bget 1 1 15 full_cache)))
         (bucket (final (bget 1 1 15 full_cache)) (HASH 15)) 1 15 = Some 0 ∧
  ∃ x1 s2,
    bufs (final (bget 1 1 15 full_cache)) !! 0 = Some x1 ∧
    sleeplock x1 = Some 1 ∧
    bget 2 1 15 (final (bget 1 1 15 full_cache)) = Wait (SleepLock 0) s2 ∧
    bufs s2 = <[0 := with_refcnt (uint (refcnt x1 + 1)) x1]>
                (bufs (final (bget 1 1 15 full_cache))) ∧
    table s2 = table (final (bget 1 1 15 full_cache)) ∧
    lock s2 = lock (final (bget 1 1 15 full_cache)).
Proof.
  split; [exact full_cache_inv|]. split; [by vm_compute|].
  apply (bget_same_block_same_buffer 1 2 1 15 full_cache 0
           (final (bget 1 1 15 full_cache)));
    [exact full_cache_inv|by vm_compute].
Defined.

(** X3. In every state the cache reaches, a buffer with [valid] set is the
    buffer the lookup of [bget] finds for its own [dev] and [blockno];
    hence no two buffers with [valid] set hold the same block. *)
Theorem valid_blocks_unique (s : kstate) :
  reachable s →
  valid_first s ∧
  ∀ b1 b2 x1 x2,
    bufs s !! b1 = Some x1 → bufs s !! b2 = Some x2 →
    valid x1 ≠ 0%Z → valid x2 ≠ 0%Z →
    dev x1 = dev x2 → blockno x1 = blockno x2 → b1 = b2.
Proof.
  intros Hreach. pose proof (reachable_valid_first s Hreach) as HV.
  split; [done|].
  intros b1 b2 x1 x2 Hx1 Hx2 Hv1 Hv2 Hd Hb.
  pose proof (HV b1 x1 Hx1 Hv1) as H1. pose proof (HV b2 x2 Hx2 Hv2) as H2.
  rewrite Hd, Hb in H1. congruence.
Qed.

Lemma valid_blocks_unique_witness :
  reachable run5 ∧
  valid_first run5 ∧
  ∀ b1 b2 x1 x2,
    bufs run5 !! b1 = Some x1 → bufs run5 !! b2 = Some x2 →
    valid x1 ≠ 0%Z → valid x2 ≠ 0%Z →
    dev x1 = dev x2 → blockno x1 = blockno x2 → b1 = b2.
Proof.
  split; [exact run5_reachable|].
  apply (valid_blocks_unique run5). exact run5_reachable.
Defined.

(** X4. Read, release, read again. After [bread(dev, blockno)] has returned
    [b] and the caller has released it with [brelse], the next [bread] of
    the same block, by any thread, returns [b] again with the same content:
    it takes and releases the home bucket lock, takes the sleep lock of [b]
    and makes no call to the disk. *)
Theorem bread_brelse_bread (t t' : tid) (dv bn : Z) (s : kstate) (b : nat)
    (s1 s2 : kstate) :
  inv s →
  bread t dv bn s = Ret b s1 →
  brelse t b s1 = Ret tt s2 →
  ∃ x1 s3 x3,
    bufs s1 !! b = Some x1 ∧
    bread t' dv bn s2 = Ret b s3 ∧
    trace s3 = trace s2 ++ [EvAcquire t' (ShardLock (HASH bn));
                            EvRelease t' (ShardLock (HASH bn));
                            EvAcquire t' (SleepLock b)] ∧
    disk s3 = disk s2 ∧
    bufs s3 !! b = Some x3 ∧ data x3 = data x1 ∧ valid x3 ≠ 0%Z ∧
    dev x3 = dv ∧ blockno x3 = bn ∧ sleeplock x3 = Some t'.
Proof.
  intros Hinv Hrd Hrel.
  destruct (bread_Ret _ _ _ _ _ _ Hrd) as (s0 & x0 & Hget & Hx0 & Hs1).
  pose proof (bget_first_match _ _ _ _ _ _ Hinv Hget) as Hfirst0.
  destruct (bget_Ret_locked _ _ _ _ _ _ Hget) as (x0' & Hx0' & Hsl0 & Hd0 & Hb0).
  assert (x0' = x0) as -> by congruence.
  destruct (bget_Ret_locks _ _ _ _ _ _ Hget) as (Hlk0 & _ & Hfree).
  assert (b < length (bufs s0)) as Hlt by (by eapply lookup_lt_Some).
  (* the state after the first read *)
  assert (∃ x1, bufs s1 !! b = Some x1 ∧ valid x1 ≠ 0%Z ∧ dev x1 = dv ∧
                blockno x1 = bn ∧ sleeplock x1 = Some t ∧
                table s1 = table s0 ∧ lock s1 = lock s0 ∧
                cached (bufs s1) (bucket s1 (HASH bn)) dv bn = Some b)
    as (x1 & Hx1 & Hv1 & Hd1 & Hb1 & Hsl1 & Htb1 & Hlk1 & Hfirst1).
  { rewrite Hs1. destruct (valid x0 =? 0)%Z eqn:Hv.
    - eexists. simpl. split; [by apply list_lookup_insert_eq|].
      simpl. repeat (split; [done|]). unfold bucket. simpl.
      by apply (cached_insert_same _ _ _ _ _ _ x0).
    - apply Z.eqb_neq in Hv. by exists x0. }
  (* the release *)
  destruct (brelse_Ret _ _ _ _ _ Hrel) as (x1' & Hx1' & _ & Hk & Htl).
  assert (x1' = x1) as -> by congruence.
  destruct (brelse_ok _ _ _ _ Hx1 Hsl1 Hk Htl)
    as (s2' & Hrel' & Hbs2 & Htb2 & Hlk2 & _).
  assert (s2' = s2) as -> by congruence. clear Hrel'.
  assert (b < length (bufs s1)) as Hlt1 by (by eapply lookup_lt_Some).
  set (x2 := mkbuf (valid x1) (dev x1) (blockno x1) None
               (uint (refcnt x1 - 1)) (ticks s1) (data x1)) in *.
  assert (bufs s2 !! b = Some x2) as Hx2
    by (rewrite Hbs2; by apply list_lookup_insert_eq).
  assert (cached (bufs s2) (bucket s2 (HASH (blockno x1))) (dev x1) (blockno x1)
          = Some b) as Hfirst2.
  { unfold bucket. rewrite Htb2, Hbs2.
    apply (cached_insert_same _ _ _ _ _ _ x1); [|done|done|done].
    rewrite Hd1, Hb1. exact Hfirst1. }
  assert (lock s2 !! HASH (blockno x1) = Some None) as Hfree2
    by (rewrite Hlk2; exact Hk).
  (* the second read *)
  destruct (bget_hit_Ret t' _ _ _ _ _ Hfirst2 Hx2 Hfree2 eq_refl)
    as (s3 & Hget3 & Hbs3 & _ & _ & _ & _ & Hd3 & Htr3).
  rewrite Hd1, Hb1 in Hget3. rewrite Hb1 in Htr3.
  assert (bufs s3 !! b = Some (mkbuf (valid x1) (dev x1) (blockno x1) (Some t')
                                 (uint (refcnt x2 + 1)) (timestamp x2) (data x1)))
    as Hx3.
  { rewrite Hbs3. apply list_lookup_insert_eq. by rewrite Hbs2, length_insert. }
  exists x1, s3. eexists. split; [done|]. split.
  { rewrite (bread_after_bget _ _ _ _ _ _ _ Hget3 Hx3). simpl.
    by rewrite (proj2 (Z.eqb_neq _ _) Hv1). }
  split; [done|]. split; [done|]. split; [exact Hx3|]. simpl. done.
Qed.

Lemma bread_brelse_bread_witness :
  inv full_cache ∧
  bread 1 1 15 full_cache = Ret 0 (final (bread 1 1 15 full_cache)) ∧
  brelse 1 0 (final (bread 1 1 15 full_cache))
    = Ret tt (final (brelse 1 0 (final (bread 1 1 15 full_cache)))) ∧
  ∃ x1 s3 x3,
    bufs (final (bread 1 1 15 full_cache)) !! 0 = Some x1 ∧
    bread 2 1 15 (final (brelse 1 0 (final (bread 1 1 15 full_cache)))) = Ret 0 s3 ∧
    trace s3 = trace (final (brelse 1 0 (final (bread 1 1 15 full_cache))))
               ++ [EvAcquire 2 (ShardLock (HASH 15));
                   EvRelease 2 (ShardLock (HASH 15));
                   EvAcquire 2 (SleepLock 0)] ∧
    disk s3 = disk (final (brelse 1 0 (final (bread 1 1 15 full_cache)))) ∧
    bufs s3 !! 0 = Some x3 ∧ data x3 = data x1 ∧ valid x3 ≠ 0%Z ∧
    dev x3 = 1%Z ∧ blockno x3 = 15%Z ∧ sleeplock x3 = Some 2.
Proof.
  split; [exact full_cache_inv|]. split; [by vm_compute|]. split; [by vm_compute|].
  apply (bread_brelse_bread 1 2 1 15 full_cache 0
           (final (bread 1 1 15 full_cache))
           (final (brelse 1 0 (final (bread 1 1 15 full_cache)))));
    [exact full_cache_inv|by vm_compute|by vm_compute].
Defined.

(** ** Pinning *)

(** X5. A pinned buffer is not recycled. After [bpin] of buffer [c] (whose
    count does not overflow), a [bget] that misses returns another buffer
    and leaves [c] as it is, on the list it is on. *)
Theorem pinned_not_recycled (t t' : tid) (c : nat) (dv bn : Z) (s s1 : kstate)
    (x : buf) (b : nat) (s2 : kstate) :
  bufs s !! c = Some x →
  (0 ≤ refcnt x < UINT_MOD - 1)%Z →
  bpin t c s = Ret tt s1 →
  cached (bufs s1) (bucket s1 (HASH bn)) dv bn = None →
  bget t' dv bn s1 = Ret b s2 →
  b ≠ c ∧
  bufs s1 !! c = Some (with_refcnt (refcnt x + 1) x) ∧
  bufs s2 !! c = bufs s1 !! c ∧
  (∀ k, c ∈ bucket s2 k ↔ c ∈ bucket s1 k).
Proof.
  intros Hx Hr Hpin Hmiss Hget.
  destruct (bpin_Ret _ _ _ _ _ Hpin) as (x' & Hx' & Hk).
  assert (x' = x) as -> by congruence.
  destruct (bpin_ok t _ _ _ Hx Hk) as (s1' & Hpin' & Hbs1 & _).
  assert (s1' = s1) as -> by congruence.
  assert (bufs s1 !! c = Some (with_refcnt (refcnt x + 1) x)) as Hc1.
  { rewrite Hbs1, uint_small by lia.
    apply list_lookup_insert_eq. by eapply lookup_lt_Some. }
  destruct (bget_miss_select _ _ _ _ _ _ Hmiss Hget)
    as (pre & j & post & s0 & y & _ & _ & _ & _ & _ & _ & _ & _ & Hy & Hidle & _
        & _ & _ & _ & Hbs2 & Htb2 & _).
  assert (b ≠ c) as Hne.
  { intros ->. rewrite Hc1 in Hy. injection Hy as <-. simpl in Hidle. lia. }
  split; [done|]. split; [done|]. split.
  - rewrite Hbs2. by apply list_lookup_insert_ne.
  - intros k. unfold bucket. rewrite Htb2.
    destruct (decide (j ≠ HASH bn)); [|done]. apply mem_relocate. congruence.
Qed.

Lemma pinned_not_recycled_witness :
  bufs full_cache !! 0 = Some (mkbuf 1 1 2 None 0 4 []) ∧
  (0 ≤ refcnt (mkbuf 1 1 2 None 0 4 []) < UINT_MOD - 1)%Z ∧
  bpin 9 0 full_cache = Ret tt pinned_cache ∧
  cached (bufs pinned_cache) (bucket pinned_cache (HASH 15)) 1 15 = None ∧
  bget 1 1 15 pinned_cache = Ret 1 (final (bget 1 1 15 pinned_cache)) ∧
  1 ≠ 0 ∧
  bufs pinned_cache !! 0
    = Some (with_refcnt (refcnt (mkbuf 1 1 2 None 0 4 []) + 1)
                        (mkbuf 1 1 2 None 0 4 [])) ∧
  bufs (final (bget 1 1 15 pinned_cache)) !! 0 = bufs pinned_cache !! 0 ∧
  (∀ k, 0 ∈ bucket (final (bget 1 1 15 pinned_cache)) k ↔ 0 ∈ bucket pinned_cache k).
Proof.
  split; [reflexivity|]. split; [by vm_compute|]. split; [by vm_compute|].
  split; [by vm_compute|]. split; [by vm_compute|].
  apply (pinned_not_recycled 9 1 0 1 15 full_cache pinned_cache
           (mkbuf 1 1 2 None 0 4 []) 1 (final (bget 1 1 15 pinned_cache)));
    by vm_compute.
Defined.

(** X6. [bpin] followed by [bunpin] of the same buffer, when the bucket lock
    is free and the count does not overflow, brings the buffers, the lists,
    the locks, the clock and the disk back to what they were. *)
Theorem bpin_bunpin_round_trip (t t' : tid) (b : nat) (s : kstate) (x : buf) :
  bufs s !! b = Some x →
  lock s !! HASH (blockno x) = Some None →
  (0 ≤ refcnt x < UINT_MOD - 1)%Z →
  ∃ s1 s2,
    bpin t b s = Ret tt s1 ∧ bunpin t' b s1 = Ret tt s2 ∧
    bufs s1 !! b = Some (with_refcnt (refcnt x + 1) x) ∧
    bufs s2 = bufs s ∧ table s2 = table s ∧ lock s2 = lock s ∧
    tickslock s2 = tickslock s ∧ ticks s2 = ticks s ∧ disk s2 = disk s.
Proof.
  intros Hx Hk Hr.
  assert (b < length (bufs s)) as Hlt by (by eapply lookup_lt_Some).
  destruct (bpin_ok t _ _ _ Hx Hk) as (s1 & Hpin & Hbs1 & Htb1 & Hlk1 & Htl1 & Htk1 & Hd1).
  rewrite uint_small in Hbs1 by lia.
  assert (bufs s1 !! b = Some (with_refcnt (refcnt x + 1) x)) as Hx1
    by (rewrite Hbs1; by apply list_lookup_insert_eq).
  assert (lock s1 !! HASH (blockno (with_refcnt (refcnt x + 1) x)) = Some None) as Hk1
    by (by rewrite Hlk1).
  destruct (bunpin_ok t' _ _ _ Hx1 Hk1)
    as (s2 & Hunpin & Hbs2 & Htb2 & Hlk2 & Htl2 & Htk2 & Hd2).
  exists s1, s2. split; [done|]. split; [done|]. split; [done|].
  split; [|repeat split; congruence].
  rewrite Hbs2, Hbs1, list_insert_insert_eq. simpl.
  replace (refcnt x + 1 - 1)%Z with (refcnt x) by lia.
  rewrite uint_small by lia. apply list_insert_id. rewrite Hx. by destruct x.
Qed.

Lemma bpin_bunpin_round_trip_witness :
  bufs full_cache !! 0 = Some (mkbuf 1 1 2 None 0 4 []) ∧
  lock full_cache !! HASH (blockno (mkbuf 1 1 2 None 0 4 [])) = Some None ∧
  (0 ≤ refcnt (mkbuf 1 1 2 None 0 4 []) < UINT_MOD - 1)%Z ∧
  ∃ s1 s2,
    bpin 9 0 full_cache = Ret tt s1 ∧ bunpin 8 0 s1 = Ret tt s2 ∧
    bufs s1 !! 0 = Some (with_refcnt (refcnt (mkbuf 1 1 2 None 0 4 []) + 1)
                                     (mkbuf 1 1 2 None 0 4 [])) ∧
    bufs s2 = bufs full_cache ∧ table s2 = table full_cache ∧
    lock s2 = lock full_cache ∧ tickslock s2 = tickslock full_cache ∧
    ticks s2 = ticks full_cache ∧ disk s2 = disk full_cache.
Proof.
  split; [reflexivity|]. split; [reflexivity|]. split; [by vm_compute|].
  apply (bpin_bunpin_round_trip 9 8 0 full_cache (mkbuf 1 1 2 None 0 4 []));
    [reflexivity|reflexivity|by vm_compute].
Defined.

(** ** Taking and releasing a cached block *)

(** X7. A hit followed by [brelse], when the locks involved are free and
    the count does not overflow, leaves the cache as it was except for the
    timestamp of the buffer, which becomes the current [ticks]: [refcnt] is
    back at its value, the sleep lock is free again, and [valid], the
    content, the lists and the locks are unchanged. *)
Theorem bget_brelse_round_trip (t : tid) (dv bn : Z) (s : kstate) (b : nat)
    (x : buf) :
  cached (bufs s) (bucket s (HASH bn)) dv bn = Some b →
  bufs s !! b = Some x →
  lock s !! HASH bn = Some None →
  sleeplock x = None → tickslock s = None →
  (0 ≤ refcnt x < UINT_MOD - 1)%Z →
  ∃ s1 s2,
    bget t dv bn s = Ret b s1 ∧ brelse t b s1 = Ret tt s2 ∧
    bufs s2 = <[b := with_timestamp (ticks s) x]> (bufs s) ∧
    table s2 = table s ∧ lock s2 = lock s ∧ tickslock s2 = tickslock s ∧
    ticks s2 = ticks s ∧ disk s2 = disk s.
Proof.
  intros Hhit Hx Hfree Hsl Htl Hr.
  assert (b < length (bufs s)) as Hlt by (by eapply lookup_lt_Some).
  destruct (cached_Some _ _ _ _ _ Hhit) as (x' & _ & _ & Hx' & Hd & Hb & _).
  assert (x' = x) as -> by congruence.
  destruct (bget_hit_Ret t _ _ _ _ _ Hhit Hx Hfree Hsl)
    as (s1 & Hget & Hbs1 & Htb1 & Hlk1 & Htl1 & Htk1 & Hd1 & _).
  rewrite uint_small in Hbs1 by lia.
  set (x1 := mkbuf (valid x) (dev x) (blockno x) (Some t) (refcnt x + 1)
               (timestamp x) (data x)) in *.
  assert (bufs s1 !! b = Some x1) as Hx1
    by (rewrite Hbs1; by apply list_lookup_insert_eq).
  assert (lock s1 !! HASH (blockno x1) = Some None) as Hk1.
  { rewrite Hlk1. simpl. by rewrite Hb. }
  assert (tickslock s1 = None) as Htl1' by congruence.
  destruct (brelse_ok t _ _ _ Hx1 eq_refl Hk1 Htl1')
    as (s2 & Hrel & Hbs2 & Htb2 & Hlk2 & Htl2 & Htk2 & Hd2).
  exists s1, s2. split; [done|]. split; [done|].
  split; [|repeat split; congruence].
  rewrite Hbs2, Hbs1, list_insert_insert_eq. simpl.
  replace (refcnt x + 1 - 1)%Z with (refcnt x) by lia.
  rewrite uint_small by lia. rewrite Htk1, <- Hsl. by destruct x.
Qed.

Lemma bget_brelse_round_trip_witness :
  cached (bufs full_cache) (bucket full_cache (HASH 1)) 1 1 = Some 1 ∧
  bufs full_cache !! 1 = Some (mkbuf 1 1 1 None 0 2 []) ∧
  lock full_cache !! HASH 1 = Some None ∧
  sleeplock (mkbuf 1 1 1 None 0 2 []) = None ∧ tickslock full_cache = None ∧
  (0 ≤ refcnt (mkbuf 1 1 1 None 0 2 []) < UINT_MOD - 1)%Z ∧
  ∃ s1 s2,
    bget 7 1 1 full_cache = Ret 1 s1 ∧ brelse 7 1 s1 = Ret tt s2 ∧
    bufs s2 = <[1 := with_timestamp (ticks full_cache) (mkbuf 1 1 1 None 0 2 [])]>
                (bufs full_cache) ∧
    table s2 = table full_cache ∧ lock s2 = lock full_cache ∧
    tickslock s2 = tickslock full_cache ∧
    ticks s2 = ticks full_cache ∧ disk s2 = disk full_cache.
Proof.
  split; [reflexivity|]. split; [reflexivity|]. split; [reflexivity|].
  split; [reflexivity|]. split; [reflexivity|]. split; [by vm_compute|].
  apply (bget_brelse_round_trip 7 1 1 full_cache 1 (mkbuf 1 1 1 None 0 2 []));
    [reflexivity|reflexivity|reflexivity|reflexivity|reflexivity|by vm_compute].
Defined.

(** X8. A hit on a buffer whose sleep lock somebody holds does not return:
    the caller has raised [refcnt] (so the buffer is not idle while it
    waits, short of overflow), has taken and released the home bucket lock,
    and waits for the sleep lock holding no bucket lock of its own; nothing
    else has changed. *)
Theorem bget_hit_waits_counted (t h : tid) (dv bn : Z) (s : kstate) (b : nat)
    (x : buf) :
  cached (bufs s) (bucket s (HASH bn)) dv bn = Some b →
  bufs s !! b = Some x →
  lock s !! HASH bn = Some None →
  sleeplock x = Some h →
  ∃ s', bget t dv bn s = Wait (SleepLock b) s' ∧
    bufs s' = <[b := with_refcnt (uint (refcnt x + 1)) x]> (bufs s) ∧
    ((0 ≤ refcnt x < UINT_MOD - 1)%Z → uint (refcnt x + 1) ≠ 0%Z) ∧
    table s' = table s ∧ lock s' = lock s ∧ tickslock s' = tickslock s ∧
    trace s' = trace s ++ [EvAcquire t (ShardLock (HASH bn));
                           EvRelease t (ShardLock (HASH bn));
                           EvAcquire t (SleepLock b)].
Proof.
  intros Hhit Hx Hfree Hsl.
  destruct (bget_hit_Wait t h _ _ _ _ _ Hhit Hx Hfree Hsl)
    as (s' & Hw & Hbs & Htb & Hlk & Htl & _ & _ & Htr).
  exists s'. split; [done|]. split; [done|]. split; [|done].
  intros Hr. rewrite uint_small by lia. lia.
Qed.

Lemma bget_hit_waits_counted_witness :
  cached (bufs busy_cache) (bucket busy_cache (HASH 1)) 1 1 = Some 1 ∧
  bufs busy_cache !! 1 = Some (mkbuf 1 1 1 (Some 4) 2 2 []) ∧
  lock busy_cache !! HASH 1 = Some None ∧
  sleeplock (mkbuf 1 1 1 (Some 4) 2 2 []) = Some 4 ∧
  ∃ s', bget 7 1 1 busy_cache = Wait (SleepLock 1) s' ∧
    bufs s' = <[1 := with_refcnt (uint (refcnt (mkbuf 1 1 1 (Some 4) 2 2 []) + 1))
                                 (mkbuf 1 1 1 (Some 4) 2 2 [])]> (bufs busy_cache) ∧
    ((0 ≤ refcnt (mkbuf 1 1 1 (Some 4%nat) 2 2 []) < UINT_MOD - 1)%Z →
     uint (refcnt (mkbuf 1 1 1 (Some 4) 2 2 []) + 1) ≠ 0%Z) ∧
    table s' = table busy_cache ∧ lock s' = lock busy_cache ∧
    tickslock s' = tickslock busy_cache ∧
    trace s' = trace busy_cache ++ [EvAcquire 7 (ShardLock (HASH 1));
                                    EvRelease 7 (ShardLock (HASH 1));
                                    EvAcquire 7 (SleepLock 1)].
Proof.
  split; [reflexivity|]. split; [reflexivity|]. split; [reflexivity|].
  split; [reflexivity|].
  apply (bget_hit_waits_counted 7 4 1 1 busy_cache 1 (mkbuf 1 1 1 (Some 4) 2 2 []));
    reflexivity.
Defined.

(** ** Locks across calls *)

(** X9. No spin lock outlives a call. In every state the cache reaches,
    all [NBUCKET] bucket locks and [tickslock] are free, and a call of the
    interface that returns from there leaves them free: whatever spin lock
    it took, it has released. *)
Theorem no_lock_held_between_calls (s : kstate) :
  reachable s →
  lock s = replicate NBUCKET None ∧ tickslock s = None ∧
  (∀ i, i < NBUCKET → lock s !! i = Some None) ∧
  (∀ t c s', exec t c s = Ret tt s' →
             lock s' = replicate NBUCKET None ∧ tickslock s' = None).
Proof.
  intros Hreach. destruct (reachable_unlocked s Hreach) as [Hlk Htl].
  split; [done|]. split; [done|]. split.
  - intros i Hi. rewrite Hlk. by apply lookup_replicate_2.
  - intros t c s' Hex. destruct (exec_locks _ _ _ _ _ Hex) as [Hlk' Htl'].
    split; congruence.
Qed.

Lemma no_lock_held_between_calls_witness :
  reachable run5 ∧
  lock run5 = replicate NBUCKET None ∧ tickslock run5 = None ∧
  (∀ i, i < NBUCKET → lock run5 !! i = Some None) ∧
  (∀ t c s', exec t c run5 = Ret tt s' →
             lock s' = replicate NBUCKET None ∧ tickslock s' = None).
Proof.
  split; [exact run5_reachable|].
  apply (no_lock_held_between_calls run5). exact run5_reachable.
Defined.

(** ** Ties in the scan of one bucket *)

(** X10. The inner loop of the scan replaces its candidate only by a
    strictly older buffer. So the buffer it ends with is, among the buffers
    of the list with [refcnt == 0], the first in list order of those with
    the smallest timestamp: every idle buffer before it is strictly
    younger, every idle buffer after it is not older. *)
Theorem lru_first_oldest (bs : list buf) (l : list nat) (b : nat) :
  lru bs l None = Some b →
  ∃ pre post x,
    l = pre ++ b :: post ∧ bs !! b = Some x ∧ refcnt x = 0%Z ∧
    (∀ b' x', b' ∈ pre → bs !! b' = Some x' → refcnt x' = 0%Z →
              (timestamp x < timestamp x')%Z) ∧
    (∀ b' x', b' ∈ post → bs !! b' = Some x' → refcnt x' = 0%Z →
              (timestamp x ≤ timestamp x')%Z).
Proof.
  intros Hlru.
  pose proof (lru_pos_step bs [] l None) as Hpos. simpl in Hpos.
  rewrite Hlru in Hpos.
  destruct Hpos as (pre & post & -> & (x & Hx & Hr) & Hpre & Hpost).
  { intros c Hc. by apply elem_of_nil in Hc. }
  exists pre, post, x. split; [done|]. split; [done|]. split; [done|].
  split.
  - intros b' x' Hb' Hx' Hr'.
    assert (idle bs b') as Hi by (by exists x').
    specialize (Hpre b' Hb' Hi). unfold stamp_of in Hpre.
    by rewrite Hx, Hx' in Hpre.
  - intros b' x' Hb' Hx' Hr'.
    assert (idle bs b') as Hi by (by exists x').
    specialize (Hpost b' Hb' Hi). unfold stamp_of in Hpost.
    by rewrite Hx, Hx' in Hpost.
Qed.

Lemma lru_first_oldest_witness :
  lru [mkbuf 0 0 0 None 0 7 []; mkbuf 0 0 0 None 1 3 []; mkbuf 0 0 0 None 0 7 []]
      [2; 1; 0] None = Some 2 ∧
  ∃ pre post x,
    [2; 1; 0] = pre ++ 2 :: post ∧
    [mkbuf 0 0 0 None 0 7 []; mkbuf 0 0 0 None 1 3 []; mkbuf 0 0 0 None 0 7 []]
      !! 2 = Some x ∧ refcnt x = 0%Z ∧
    (∀ b' x', b' ∈ pre →
       [mkbuf 0 0 0 None 0 7 []; mkbuf 0 0 0 None 1 3 []; mkbuf 0 0 0 None 0 7 []]
         !! b' = Some x' → refcnt x' = 0%Z → (timestamp x < timestamp x')%Z) ∧
    (∀ b' x', b' ∈ post →
       [mkbuf 0 0 0 None 0 7 []; mkbuf 0 0 0 None 1 3 []; mkbuf 0 0 0 None 0 7 []]
         !! b' = Some x' → refcnt x' = 0%Z → (timestamp x ≤ timestamp x')%Z).
Proof.
  split; [reflexivity|].
  apply (lru_first_oldest
           [mkbuf 0 0 0 None 0 7 []; mkbuf 0 0 0 None 1 3 []; mkbuf 0 0 0 None 0 7 []]
           [2; 1; 0] 2).
  reflexivity.
Defined.

(** ** Blocks in use stay cached *)

(** X11. A block whose buffer is referenced ([refcnt] not 0) stays cached
    across any [bget] that returns, hit or miss, for whatever block: the
    lookup of its pair finds the same buffer afterwards, with the same
    content and the same [valid], [dev] and [blockno]. *)
Theorem bget_keeps_blocks_in_use (t : tid) (dv bn : Z) (s : kstate) (b : nat)
    (s' : kstate) (dv' bn' : Z) (c : nat) (y : buf) :
  inv s →
  bget t dv bn s = Ret b s' →
  cached (bufs s) (bucket s (HASH bn')) dv' bn' = Some c →
  bufs s !! c = Some y → refcnt y ≠ 0%Z →
  cached (bufs s') (bucket s' (HASH bn')) dv' bn' = Some c ∧
  ∃ y', bufs s' !! c = Some y' ∧ data y' = data y ∧ valid y' = valid y ∧
        dev y' = dev y ∧ blockno y' = blockno y.
Proof.
  intros Hinv Hget Hfirst Hy Hr.
  destruct (cached (bufs s) (bucket s (HASH bn)) dv bn) as [c0|] eqn:Hc.
  - destruct (bget_hit_inv _ _ _ _ _ _ _ Hc Hget) as (-> & Hfree & x & Hx & Hsl).
    destruct (bget_hit_Ret t _ _ _ _ _ Hc Hx Hfree Hsl)
      as (s2 & Hget2 & Hb & Htb & _).
    assert (s2 = s') as -> by congruence.
    split.
    + unfold bucket. rewrite Htb, Hb. by apply (cached_insert_same _ _ _ _ _ _ x).
    + rewrite Hb. destruct (decide (c = c0)) as [->|Hne].
      * assert (x = y) as -> by congruence.
        eexists. split; [apply list_lookup_insert_eq; by eapply lookup_lt_Some|done].
      * exists y. by rewrite list_lookup_insert_ne.
  - destruct (bget_miss_select _ _ _ _ _ _ Hc Hget)
      as (_ & _ & _ & _ & x & _ & _ & _ & _ & _ & _ & _ & _ & Hx & Hidle & _ & _
          & _ & _ & Hb & _).
    assert (c ≠ b) as Hne by (intros ->; congruence).
    split.
    + by eapply bget_miss_keeps_lookup.
    + exists y. rewrite Hb. by rewrite list_lookup_insert_ne.
Qed.

Lemma bget_keeps_blocks_in_use_witness :
  inv pinned_cache ∧
  bget 1 1 15 pinned_cache = Ret 1 (final (bget 1 1 15 pinned_cache)) ∧
  cached (bufs pinned_cache) (bucket pinned_cache (HASH 2)) 1 2 = Some 0 ∧
  bufs pinned_cache !! 0 = Some (mkbuf 1 1 2 None 1 4 []) ∧
  refcnt (mkbuf 1 1 2 None 1 4 []) ≠ 0%Z ∧
  cached (bufs (final (bget 1 1 15 pinned_cache)))
         (bucket (final (bget 1 1 15 pinned_cache)) (HASH 2)) 1 2 = Some 0 ∧
  ∃ y', bufs (final (bget 1 1 15 pinned_cache)) !! 0 = Some y' ∧
        data y' = data (mkbuf 1 1 2 None 1 4 []) ∧
        valid y' = valid (mkbuf 1 1 2 None 1 4 []) ∧
        dev y' = dev (mkbuf 1 1 2 None 1 4 []) ∧
        blockno y' = blockno (mkbuf 1 1 2 None 1 4 []).
Proof.
  split; [exact pinned_cache_inv|]. split; [by vm_compute|].
  split; [by vm_compute|]. split; [by vm_compute|]. split; [by vm_compute|].
  apply (bget_keeps_blocks_in_use 1 1 15 pinned_cache 1
           (final (bget 1 1 15 pinned_cache)) 1 2 0 (mkbuf 1 1 2 None 1 4 []));
    [exact pinned_cache_inv|by vm_compute|by vm_compute|by vm_compute|by vm_compute].
Defined.

(** ** The pool right after [binit] *)

(** X12. [binit] gives the buffers no identity of their own: on zeroed
    storage each keeps [dev == 0] and [blockno == 0]. So the first
    [bread(0, 0)] after [binit] on a pool of [nbuf > 0] buffers is a hit,
    not a miss: it returns the buffer at the head of bucket 0, the last one
    of the pool, moves no buffer, and, the buffer having [valid == 0],
    reads the block from the disk. *)
Theorem bread_zero_after_binit (t : tid) (nbuf : nat) :
  0 < nbuf →
  ∃ s0 s',
    binit (boot nbuf) = Ret tt s0 ∧
    cached (bufs s0) (bucket s0 (HASH 0)) 0 0 = Some (nbuf - 1) ∧
    bread t 0 0 s0 = Ret (nbuf - 1) s' ∧
    table s' = table s0 ∧
    trace s' = [EvAcquire t (ShardLock 0); EvRelease t (ShardLock 0);
                EvAcquire t (SleepLock (nbuf - 1)); EvDisk t (nbuf - 1) false] ∧
    bufs s' !! (nbuf - 1) = Some (mkbuf 1 0 0 (Some t) 1 0 []).
Proof.
  intros Hn.
  destruct (binit_post (boot nbuf))
    as (s0 & Hinit & Htb & Hlk & Hbs & _ & _ & Hdisk & Htr).
  destruct nbuf as [|n]; [lia|]. replace (S n - 1) with n by lia.
  assert (bufs s0 !! n = Some zero_buf) as Hx.
  { rewrite Hbs.
    change (bufs (boot (S n))) with (replicate (S n) zero_buf).
    rewrite lookup_replicate_2 by lia. by destruct (decide _). }
  assert (bucket s0 (HASH 0) = n :: reverse (seq 0 n)) as Hbk.
  { change (HASH 0) with 0. unfold bucket. rewrite Htb.
    change (bufs (boot (S n))) with (replicate (S n) zero_buf).
    by rewrite length_replicate, seq_S, reverse_snoc. }
  assert (cached (bufs s0) (bucket s0 (HASH 0)) 0 0 = Some n) as Hhit.
  { rewrite Hbk. simpl. by rewrite Hx. }
  assert (lock s0 !! HASH 0 = Some None) as Hfree.
  { rewrite Hlk. change (HASH 0) with 0. apply lookup_replicate_2.
    unfold NBUCKET. lia. }
  destruct (bget_hit_Ret t _ _ _ _ _ Hhit Hx Hfree eq_refl)
    as (s1 & Hget & Hbs1 & Htb1 & _ & _ & _ & Hd1 & Htr1).
  assert (bufs s1 !! n = Some (mkbuf 0 0 0 (Some t) 1 0 [])) as Hx1.
  { rewrite Hbs1. apply list_lookup_insert_eq. by eapply lookup_lt_Some. }
  exists s0. eexists. split; [done|]. split; [done|].
  split; [by rewrite (bread_after_bget _ _ _ _ _ _ _ Hget Hx1)|]. simpl.
  split; [done|]. split.
  - rewrite Htr1, Htr. by unfold boot.
  - rewrite list_lookup_insert_eq by (by eapply lookup_lt_Some).
    rewrite Hd1, Hdisk. by unfold boot.
Qed.

Lemma bread_zero_after_binit_witness :
  0 < 3 ∧
  ∃ s0 s',
    binit (boot 3) = Ret tt s0 ∧
    cached (bufs s0) (bucket s0 (HASH 0)) 0 0 = Some (3 - 1) ∧
    bread 7 0 0 s0 = Ret (3 - 1) s' ∧
    table s' = table s0 ∧
    trace s' = [EvAcquire 7 (ShardLock 0); EvRelease 7 (ShardLock 0);
                EvAcquire 7 (SleepLock (3 - 1)); EvDisk 7 (3 - 1) false] ∧
    bufs s' !! (3 - 1) = Some (mkbuf 1 0 0 (Some 7) 1 0 []).
Proof.
  split; [lia|]. apply (bread_zero_after_binit 7 3). lia.
Defined.
